(** * Flight animation: the progressive-reveal loop of [src/main.js]

    A shallow embedding of the animation core of the OpenLayers flight
    animation demo: the staggered admission of features ([addLater], the
    loader of [flightsSource]) and the per-frame callback ([animateFlights]).

    Modelling conventions.
    - JavaScript numbers are exact rationals ([Q]).  Times are millisecond
      clock readings, [pointsPerMs] is the literal [0.02]; the comparisons
      and the truncation done by the code are the ones written here, on the
      ideal value instead of its binary64 rounding.  At the numbers the
      results below name, the two agree: in binary64, [5050 * 0.02] is 101,
      [5000 * 0.02] is 100, [100 / 0.02] is 5000, [50 / 0.02] is 2500 and
      [1 / 0.02] is 50.
    - A missing attribute ([feature.get("start")] on a feature that never had
      one) is [None]; arithmetic on it yields [NaN], and every comparison
      with [NaN] is false.
    - The vector source is the list of its features, in the order of their
      admission; [getFeatures()] hands out a snapshot of it, so a feature is
      identified by its position, which never changes because the code only
      appends.
    - The canvas is the list of [drawGeometry] calls, each tagged with the
      loop index [i] of the feature on whose behalf it was issued.
    - Styles are kept only as far as the loop computes them (the scale of
      the marker icons); the tile layer, the popup and the layer style
      function are not part of the model. *)

From Stdlib Require Import String QArith Qround Lqa ZArith Lia List Bool.
Import ListNotations.

Open Scope Q_scope.

(** ** JavaScript values used by the loop *)

Module JS.

(** A number that may be [NaN] (the result of [x - undefined]). *)
Inductive number : Type :=
| Num (q : Q)
| NaN.

(** [a - b] where [b] may be [undefined]. *)
Definition sub (a : Q) (b : option Q) : number :=
  match b with
  | Some s => Num (a - s)
  | None => NaN
  end.

(** [x >= 0]. *)
Definition geq0 (x : number) : bool :=
  match x with
  | Num q => Qle_bool 0 q
  | NaN => false
  end.

(** [Math.min(a, b)] on two proper numbers. *)
Definition min (a b : Q) : Q := if Qle_bool a b then a else b.

(** [ToIntegerOrInfinity]: truncation toward zero. *)
Definition toInteger (q : Q) : Z :=
  if Qle_bool 0 q then Qfloor q else Qceiling q.

(** [arr.slice(0, e)]: a negative [e] counts from the end, the result is
    cut to the bounds of the array. *)
Definition slice0 {A : Type} (arr : list A) (e : Q) : list A :=
  let len := Z.of_nat (length arr) in
  let rel := toInteger e in
  let final := if (rel <? 0)%Z then Z.max (len + rel) 0 else Z.min rel len in
  firstn (Z.to_nat final) arr.

(** [arr[0]] and [arr[arr.length - 1]]; [None] is [undefined]. *)
Definition first {A : Type} (arr : list A) : option A := nth_error arr 0.

Definition lastOf {A : Type} (arr : list A) : option A :=
  match arr with
  | [] => None
  | _ :: _ => nth_error arr (length arr - 1)
  end.

End JS.

(** ** Geometries and features *)

(** A coordinate is an array of numbers, [[x, y]] for the map's projection. *)
Definition coordinate : Type := list Q.

(** What the array returned by [getCoordinates()] holds: coordinates for a
    line string, bare numbers for a point. *)
Inductive elem : Type :=
| Coord (c : coordinate)
| Scalar (n : Q).

(** The two geometries the program builds, with the argument their
    constructor was given: the array for [new LineString(arr)], the value
    (possibly [undefined]) for [new Point(c)]. *)
Inductive geometry : Type :=
| LineString (coords : list elem)
| Point (at_ : option elem).

(** [geometry.getCoordinates()].  A point built from a coordinate gives back
    its numbers; a point built from anything else holds no number.  The loop
    reads the array of such a point only behind the [elapsedTime >= 0]
    guard, which the features holding one never pass. *)
Definition getCoordinates (g : geometry) : list elem :=
  match g with
  | LineString coords => coords
  | Point (Some (Coord c)) => map Scalar c
  | Point (Some (Scalar _)) => []
  | Point None => []
  end.

(** A translation moves the first two numbers of every coordinate. *)
Definition translateElem (dx dy : Q) (e : elem) : elem :=
  match e with
  | Coord (x :: y :: rest) => Coord (x + dx :: y + dy :: rest)
  | _ => e
  end.

(** [geometry.translate(dx, dy)]. *)
Definition translate (dx dy : Q) (g : geometry) : geometry :=
  match g with
  | LineString coords => LineString (map (translateElem dx dy) coords)
  | Point (Some e) => Point (Some (translateElem dx dy e))
  | Point None => g
  end.

(** The attributes a feature carries in this program.  [iconScale] is the
    [scale] of the icon style set on it, when a style with a scale is set. *)
Record feature : Type := mkFeature {
  geometry_ : geometry;
  name : option string;
  finished : bool;
  start : option Q;
  iconScale : option Q
}.

Definition set_finished (f : feature) (b : bool) : feature :=
  mkFeature (geometry_ f) (name f) b (start f) (iconScale f).

Definition set_start (f : feature) (s : Q) : feature :=
  mkFeature (geometry_ f) (name f) (finished f) (Some s) (iconScale f).

(** What the render loop supplies on a tick: [frameState.time], the view
    resolution, the x of the view centre and the width of the projection
    extent. *)
Record frame : Type := mkFrame {
  time : Q;
  resolution : Q;
  centerX : Q;
  worldWidth : Q
}.

Record drawCall : Type := mkDraw {
  subject : nat;
  shape : geometry
}.

Definition pointsPerMs : Q := 0.02.

(** ** The body of the loop of [animateFlights] (lines 147-203) *)

Definition elapsedTime (fr : frame) (f : feature) : JS.number :=
  JS.sub (time fr) (start f).

Definition elapsedPoints (elapsed : Q) : Q := elapsed * pointsPerMs.

Definition coordsOf (f : feature) : list elem := getCoordinates (geometry_ f).

Definition coordsLength (f : feature) : Q := inject_Z (Z.of_nat (length (coordsOf f))).

(** [elapsedPoints >= coords.length]. *)
Definition isNowFinished (f : feature) (elapsed : Q) : bool :=
  Qle_bool (coordsLength f) (elapsedPoints elapsed).

Definition maxIndex (f : feature) (elapsed : Q) : Q :=
  JS.min (elapsedPoints elapsed) (coordsLength f).

Definition currentLine (f : feature) (elapsed : Q) : list elem :=
  JS.slice0 (coordsOf f) (maxIndex f elapsed).

Definition offset (fr : frame) : Z := Qfloor (centerX fr / worldWidth fr).

Definition iconFeature (fr : frame) (g : geometry) : feature :=
  mkFeature g None false None (Some (0.05 / resolution fr)).

(** What one iteration leaves behind: the feature after its mutation, the
    features handed to [flightsSource.addFeatures], the draw calls, and
    whether the iteration raised. *)
Record iteration : Type := mkIteration {
  after : feature;
  added : list feature;
  calls : list drawCall;
  threw : bool
}.

Definition skipped (f : feature) : iteration := mkIteration f [] [] false.

(** The outcome of the loop over a snapshot: the snapshot after the
    mutations, the features appended to the source, the draw calls, and
    whether an iteration raised. *)
Record pass : Type := mkPass {
  snapshot : list feature;
  appended : list feature;
  drawn : list drawCall;
  aborted : bool
}.

Record tick : Type := mkTick {
  source' : list feature;
  canvas : list drawCall;
  rendered : bool
}.

(** ** [addLater] (lines 209-220) and the loader (lines 59-121) *)

(** [(coords.length - 1) / pointsPerMs]. *)
Definition duration (f : feature) : Q :=
  (coordsLength f - 1) / pointsPerMs.

(** The [forEach] of the timer callback, [start] being the running local. *)
Fixpoint addLaterLoop (start : Q) (features : list feature) : list feature :=
  match features with
  | [] => []
  | f :: rest => set_start f start :: addLaterLoop (start + duration f) rest
  end.

(** The callback of [addLater], run when [Date.now()] reads [now]. *)
Definition addLater (now : Q) (features : list feature) (source : list feature) : list feature :=
  source ++ addLaterLoop now features.

(** [line.getFirstCoordinate()] and [line.getLastCoordinate()]: the empty
    array on a line without coordinates. *)
Definition getFirstCoordinate (coords : list coordinate) : coordinate := hd [] coords.
Definition getLastCoordinate (coords : list coordinate) : coordinate := last coords [].

Definition startIcon (coords : list coordinate) : feature :=
  mkFeature (Point (Some (Coord (getFirstCoordinate coords)))) (Some "start"%string) false None None.

Definition endIcon (coords : list coordinate) : feature :=
  mkFeature (Point (Some (Coord (getLastCoordinate coords)))) (Some "end"%string) false None None.

Definition lineFeature (coords : list coordinate) : feature :=
  mkFeature (LineString (map Coord coords)) None false None None.

(** The [features] array the loader builds for one flight, from the
    (projected) geometries of its arc. *)
Definition loaderFeatures (geometries : list (list coordinate)) : list feature :=
  flat_map (fun coords => [startIcon coords; endIcon coords; lineFeature coords]) geometries.

(** What the event loop runs: the callback of an [addLater] timer, at clock
    reading [now], or the [postrender] callback of a frame. *)
Inductive event : Type :=
| Timer (now : Q) (features : list feature)
| PostRender (fr : frame).

Section Animation.

(** Whether the library's [Point] constructor raises on [undefined]
    (it reads [coordinates.length]).  The code of the constructor is not
    part of this program; the results below hold for either behaviour. *)
Variable strictPoint : bool.

(** [new Point(c)]: [None] when the constructor raises. *)
Definition newPoint (c : option elem) : option geometry :=
  match c with
  | Some e => Some (Point (Some e))
  | None => if strictPoint then None else Some (Point None)
  end.

Definition animateFeature (fr : frame) (i : nat) (f : feature) : iteration :=
  if finished f then skipped f
  else
    let elapsedTime := elapsedTime fr f in
    if JS.geq0 elapsedTime then
      match elapsedTime with
      | JS.NaN => skipped f
      | JS.Num elapsed =>
          let f' := if isNowFinished f elapsed then set_finished f true else f in
          let line := LineString (currentLine f elapsed) in
          let dx := inject_Z (offset fr) * worldWidth fr in
          match newPoint (JS.first (coordsOf f)), newPoint (JS.lastOf (coordsOf f)) with
          | Some p0, Some p1 =>
              let line1 := translate dx 0 line in
              let line2 := translate (worldWidth fr) 0 line1 in
              mkIteration f'
                [iconFeature fr p0; iconFeature fr p1]
                [mkDraw i line1; mkDraw i line2]
                false
          | _, _ => mkIteration f' [] [] true
          end
      end
    else skipped f.

(** The [for] loop over the snapshot [features], from index [i] on.  An
    iteration that raises ends the loop: the features behind it are left
    as they were. *)
Fixpoint animateLoop (fr : frame) (i : nat) (features : list feature) : pass :=
  match features with
  | [] => mkPass [] [] [] false
  | f :: rest =>
      let it := animateFeature fr i f in
      if threw it then mkPass (after it :: rest) (added it) (calls it) true
      else
        let p := animateLoop fr (S i) rest in
        mkPass (after it :: snapshot p) (added it ++ appended p)
               (calls it ++ drawn p) (aborted p)
  end.

(** [animateFlights(event)]: the source after the callback, the draw calls
    it issued, and whether it reached [map.render()]. *)
Definition animateFlights (fr : frame) (source : list feature) : tick :=
  let p := animateLoop fr 0 source in
  mkTick (snapshot p ++ appended p) (drawn p) (negb (aborted p)).

(** ** The event loop: timer callbacks and frame callbacks *)

Definition step (source : list feature) (e : event) : list feature * list drawCall :=
  match e with
  | Timer now features => (addLater now features source, [])
  | PostRender fr => let t := animateFlights fr source in (source' t, canvas t)
  end.

(** The source after a run of events, and the draw calls of each event. *)
Fixpoint run (source : list feature) (es : list event) : list feature * list (list drawCall) :=
  match es with
  | [] => (source, [])
  | e :: rest =>
      let '(s1, c) := step source e in
      let '(s2, cs) := run s1 rest in
      (s2, c :: cs)
  end.

End Animation.

(** ** Names for the parts of an iteration's outcome *)

(** The number of points the code shows after [elapsed] milliseconds. *)
Definition visiblePoints (f : feature) (elapsed : Q) : Z :=
  Z.min (Qfloor (elapsedPoints elapsed)) (Z.of_nat (length (coordsOf f))).

(** The markers and the two lines built by an iteration that passes both
    guards, and the feature it leaves, [elapsed] being the elapsed time. *)
Definition markersOf (fr : frame) (p0 p1 : geometry) : list feature :=
  [iconFeature fr p0; iconFeature fr p1].

Definition linesOf (fr : frame) (i : nat) (f : feature) (elapsed : Q) : list drawCall :=
  let line1 :=
    translate (inject_Z (offset fr) * worldWidth fr) 0 (LineString (currentLine f elapsed)) in
  [mkDraw i line1; mkDraw i (translate (worldWidth fr) 0 line1)].

Definition settled (f : feature) (elapsed : Q) : feature :=
  if isNowFinished f elapsed then set_finished f true else f.

(** The two guards of the loop body: not finished, and [elapsedTime >= 0]. *)
Definition passesGuards (fr : frame) (f : feature) : bool :=
  negb (finished f) && JS.geq0 (elapsedTime fr f).

(** Every iteration is of one of three kinds: it skips the feature, it
    raises while building the markers of a feature without coordinates, or
    it stores two markers and issues two draw calls. *)
Inductive iterationKind (strictPoint : bool) (fr : frame) (i : nat) (f : feature) : Prop :=
| Skips :
    passesGuards fr f = false ->
    animateFeature strictPoint fr i f = skipped f ->
    iterationKind strictPoint fr i f
| Raises (elapsed : Q) :
    passesGuards fr f = true ->
    elapsedTime fr f = JS.Num elapsed -> 0 <= elapsed ->
    strictPoint = true -> coordsOf f = [] ->
    animateFeature strictPoint fr i f = mkIteration (settled f elapsed) [] [] true ->
    iterationKind strictPoint fr i f
| Draws (elapsed : Q) (p0 p1 : geometry) :
    passesGuards fr f = true ->
    elapsedTime fr f = JS.Num elapsed -> 0 <= elapsed ->
    newPoint strictPoint (JS.first (coordsOf f)) = Some p0 ->
    newPoint strictPoint (JS.lastOf (coordsOf f)) = Some p1 ->
    animateFeature strictPoint fr i f =
      mkIteration (settled f elapsed) (markersOf fr p0 p1) (linesOf fr i f elapsed) false ->
    iterationKind strictPoint fr i f.

(** An iteration never touches anything but the [finished] attribute, and
    never clears it. *)
Definition sameButFinished (f g : feature) : Prop :=
  geometry_ g = geometry_ f /\ name g = name f /\ start g = start f /\
  iconScale g = iconScale f /\ (finished f = true -> finished g = true).

(** A marker as the loop body builds it: a point feature, not finished,
    without a [start]. *)
Definition isMarker (g : feature) : Prop :=
  (exists c, geometry_ g = Point c) /\ finished g = false /\ start g = None.

(** A feature the loop body will skip on every frame to come: it is finished
    already, or it has no [start]. *)
Definition inert (f : feature) : Prop := finished f = true \/ start f = None.

(** ** The style function of [flightsLayer] (lines 124-134) *)

Record strokeStyle : Type := mkStroke {
  color : string;
  width : Q
}.

(** The [style] constant of lines 51-56. *)
Definition style : strokeStyle := mkStroke "#EAE911" 3.

(** [style: function (feature) {...}]: [None] is [null]. *)
Definition flightsLayerStyle (f : feature) : option strokeStyle :=
  if finished f then Some style else None.

(** ** The loop of the loader over the flights (lines 60-119) *)




(** ** The popup (lines 221-237) *)

(** The state of the overlay: its position ([None] is [undefined], the
    popup is hidden) and the markup of its content element. *)
Record popup : Type := mkPopup {
  position : option coordinate;
  innerHTML : string
}.

Inductive mapEvent : Type :=
| SingleClick (coordinate_ : coordinate)
| CloserClick
| MoveStart.

Section Popup.

(** [toStringHDMS(toLonLat(coordinate))], a function of the library. *)
Variable hdmsOf : coordinate -> string.

Definition onSingleClick (c : coordinate) (p : popup) : popup :=
  mkPopup (Some c)
          ("<p>You clicked here:</p><code>" ++ hdmsOf c ++ "</code>")%string.

Definition onCloserClick (p : popup) : popup := mkPopup None (innerHTML p).

Definition onMoveStart (p : popup) : popup := mkPopup None (innerHTML p).

Definition popupStep (p : popup) (e : mapEvent) : popup :=
  match e with
  | SingleClick c => onSingleClick c p
  | CloserClick => onCloserClick p
  | MoveStart => onMoveStart p
  end.

Definition popupRun (p : popup) (es : list mapEvent) : popup :=
  fold_left popupStep es p.

(** The coordinate of the last click among [es], if there is one. *)
Fixpoint lastClick (es : list mapEvent) : option coordinate :=
  match es with
  | [] => None
  | e :: rest =>
      match lastClick rest with
      | Some c => Some c
      | None => match e with SingleClick c => Some c | _ => None end
      end
  end.

End Popup.

(** Shapes are compared number by number with the equality of [Q]. *)
Definition elemEq (e1 e2 : elem) : Prop :=
  match e1, e2 with
  | Coord c1, Coord c2 => Forall2 Qeq c1 c2
  | Scalar n1, Scalar n2 => n1 == n2
  | _, _ => False
  end.

Definition sameShape (g1 g2 : geometry) : Prop :=
  match g1, g2 with
  | LineString l1, LineString l2 => Forall2 elemEq l1 l2
  | Point (Some e1), Point (Some e2) => elemEq e1 e2
  | Point None, Point None => True
  | _, _ => False
  end.

(** ** Sample inputs *)

Definition sampleCoords (n : nat) : list coordinate :=
  map (fun k => [inject_Z (Z.of_nat k); 0]) (seq 0 n).

(** A line feature as the loader builds it and [addLater] admits it. *)
Definition samplePath (n : nat) (s : Q) : feature :=
  set_start (lineFeature (sampleCoords n)) s.

Definition sampleFrame (t : Q) : frame := mkFrame t 1 0 40075016.68.

(** * Properties *)

(** ** Numbers, slices and prefixes *)

Lemma Qle_bool_false (x y : Q) : Qle_bool x y = false <-> y < x.
Proof.
  split; intro H.
  - apply Qnot_le_lt. intro Hle. apply Qle_bool_iff in Hle. congruence.
  - destruct (Qle_bool x y) eqn:E; [| reflexivity].
    apply Qle_bool_iff in E. lra.
Qed.

Lemma toInteger_nonneg (q : Q) : 0 <= q -> JS.toInteger q = Qfloor q.
Proof.
  intro H. unfold JS.toInteger.
  apply Qle_bool_iff in H. now rewrite H.
Qed.

Lemma Qfloor_nonneg (q : Q) : 0 <= q -> (0 <= Qfloor q)%Z.
Proof.
  intro H. change 0%Z with (Qfloor (inject_Z 0)).
  now apply Qfloor_resp_le.
Qed.

Lemma slice0_firstn {A : Type} (arr : list A) (e : Q) :
  0 <= e ->
  JS.slice0 arr e = firstn (Z.to_nat (Z.min (Qfloor e) (Z.of_nat (length arr)))) arr.
Proof.
  intro H. unfold JS.slice0.
  rewrite (toInteger_nonneg e H).
  pose proof (Qfloor_nonneg e H) as Hf.
  destruct (Z.ltb_spec (Qfloor e) 0); [lia | reflexivity].
Qed.

Lemma Qfloor_min (a : Q) (n : Z) :
  Z.min (Qfloor (JS.min a (inject_Z n))) n = Z.min (Qfloor a) n.
Proof.
  unfold JS.min. destruct (Qle_bool a (inject_Z n)) eqn:E; [reflexivity |].
  apply Qle_bool_false in E.
  rewrite Qfloor_Z.
  assert (n <= Qfloor a)%Z.
  { rewrite <- (Qfloor_Z n). apply Qfloor_resp_le. lra. }
  lia.
Qed.

Lemma coordsLength_nonneg (f : feature) : 0 <= coordsLength f.
Proof.
  unfold coordsLength. change 0 with (inject_Z 0).
  rewrite <- Zle_Qle. lia.
Qed.

Lemma elapsedPoints_nonneg (elapsed : Q) : 0 <= elapsed -> 0 <= elapsedPoints elapsed.
Proof. unfold elapsedPoints, pointsPerMs. intro H. lra. Qed.

Lemma maxIndex_nonneg (f : feature) (elapsed : Q) : 0 <= elapsed -> 0 <= maxIndex f elapsed.
Proof.
  intro H. unfold maxIndex, JS.min.
  pose proof (coordsLength_nonneg f). pose proof (elapsedPoints_nonneg _ H).
  destruct (Qle_bool _ _); assumption.
Qed.

Lemma currentLine_prefix (f : feature) (elapsed : Q) :
  0 <= elapsed ->
  currentLine f elapsed = firstn (Z.to_nat (visiblePoints f elapsed)) (coordsOf f).
Proof.
  intro H. unfold currentLine, visiblePoints.
  rewrite (slice0_firstn _ _ (maxIndex_nonneg f elapsed H)).
  unfold maxIndex, coordsLength. now rewrite Qfloor_min.
Qed.

Lemma visiblePoints_bounds (f : feature) (elapsed : Q) :
  0 <= elapsed ->
  (0 <= visiblePoints f elapsed <= Z.of_nat (length (coordsOf f)))%Z.
Proof.
  intro H. unfold visiblePoints.
  pose proof (Qfloor_nonneg _ (elapsedPoints_nonneg _ H)). lia.
Qed.

Lemma isNowFinished_iff (f : feature) (elapsed : Q) :
  isNowFinished f elapsed = true <->
  inject_Z (Z.of_nat (length (coordsOf f))) <= elapsed * pointsPerMs.
Proof. unfold isNowFinished, coordsLength, elapsedPoints. apply Qle_bool_iff. Qed.

(** ** One iteration of the loop *)

Section Iteration.

Variable strictPoint : bool.
Variable fr : frame.
Variable i : nat.
Variable f : feature.

Lemma animateFeature_finished :
  finished f = true -> animateFeature strictPoint fr i f = skipped f.
Proof. intro H. unfold animateFeature. now rewrite H. Qed.

Lemma animateFeature_no_start :
  start f = None -> animateFeature strictPoint fr i f = skipped f.
Proof.
  intro H. unfold animateFeature, elapsedTime. rewrite H. simpl.
  now destruct (finished f).
Qed.

Lemma animateFeature_not_started (s : Q) :
  start f = Some s -> time fr < s -> animateFeature strictPoint fr i f = skipped f.
Proof.
  intros Hs Hlt. unfold animateFeature, elapsedTime. rewrite Hs. simpl.
  destruct (finished f); [reflexivity |].
  assert (E : Qle_bool 0 (time fr - s) = false) by (apply Qle_bool_false; lra).
  now rewrite E.
Qed.

Lemma animateFeature_running (s : Q) :
  finished f = false -> start f = Some s -> s <= time fr ->
  animateFeature strictPoint fr i f =
    match newPoint strictPoint (JS.first (coordsOf f)),
          newPoint strictPoint (JS.lastOf (coordsOf f)) with
    | Some p0, Some p1 =>
        mkIteration (settled f (time fr - s)) (markersOf fr p0 p1)
                    (linesOf fr i f (time fr - s)) false
    | _, _ => mkIteration (settled f (time fr - s)) [] [] true
    end.
Proof.
  intros Hf Hs Hle. unfold animateFeature, elapsedTime. rewrite Hf, Hs. simpl.
  assert (E : Qle_bool 0 (time fr - s) = true) by (apply Qle_bool_iff; lra).
  rewrite E. reflexivity.
Qed.

Lemma first_nonempty : coordsOf f <> [] -> exists e, JS.first (coordsOf f) = Some e.
Proof. destruct (coordsOf f) as [| e l]; [congruence | intros _; now exists e]. Qed.

Lemma lastOf_nonempty : coordsOf f <> [] -> exists e, JS.lastOf (coordsOf f) = Some e.
Proof.
  destruct (coordsOf f) as [| e l] eqn:E; [congruence | intros _].
  unfold JS.lastOf.
  destruct (nth_error (e :: l) (length (e :: l) - 1)) as [x |] eqn:N; [now exists x |].
  apply nth_error_None in N. simpl in N. lia.
Qed.

Lemma animateFeature_drawing (s : Q) :
  finished f = false -> start f = Some s -> s <= time fr -> coordsOf f <> [] ->
  exists e0 e1,
    JS.first (coordsOf f) = Some e0 /\ JS.lastOf (coordsOf f) = Some e1 /\
    animateFeature strictPoint fr i f =
      mkIteration (settled f (time fr - s))
                  (markersOf fr (Point (Some e0)) (Point (Some e1)))
                  (linesOf fr i f (time fr - s)) false.
Proof.
  intros Hf Hs Hle Hne.
  destruct (first_nonempty Hne) as [e0 H0], (lastOf_nonempty Hne) as [e1 H1].
  exists e0, e1. repeat split; try assumption.
  rewrite (animateFeature_running s Hf Hs Hle), H0, H1. reflexivity.
Qed.

End Iteration.

Lemma animateFeature_kind (strictPoint : bool) (fr : frame) (i : nat) (f : feature) :
  iterationKind strictPoint fr i f.
Proof.
  destruct (finished f) eqn:Hf.
  { apply Skips.
    - unfold passesGuards. now rewrite Hf.
    - now apply animateFeature_finished. }
  destruct (start f) as [s |] eqn:Hs.
  2:{ apply Skips.
      - unfold passesGuards, elapsedTime. rewrite Hs. simpl. apply andb_false_r.
      - now apply animateFeature_no_start. }
  destruct (Qlt_le_dec (time fr) s) as [Hlt | Hle].
  { apply Skips.
    - unfold passesGuards, elapsedTime. rewrite Hs. simpl.
      assert (E : Qle_bool 0 (time fr - s) = false) by (apply Qle_bool_false; lra).
      rewrite E. apply andb_false_r.
    - now apply (animateFeature_not_started strictPoint fr i f s). }
  assert (Hg : passesGuards fr f = true).
  { unfold passesGuards, elapsedTime. rewrite Hf, Hs. simpl.
    apply Qle_bool_iff. lra. }
  assert (He : elapsedTime fr f = JS.Num (time fr - s)).
  { unfold elapsedTime. now rewrite Hs. }
  assert (H0 : 0 <= time fr - s) by lra.
  pose proof (animateFeature_running strictPoint fr i f s Hf Hs Hle) as Hrun.
  destruct (coordsOf f) as [| e l] eqn:Hc.
  - unfold JS.first, JS.lastOf in Hrun. simpl in Hrun.
    destruct strictPoint eqn:Hstrict.
    + now apply (Raises _ fr i f (time fr - s)).
    + apply (Draws _ fr i f (time fr - s) (Point None) (Point None)); try assumption;
        rewrite Hc; reflexivity.
  - assert (Hne : coordsOf f <> []) by (rewrite Hc; discriminate).
    destruct (first_nonempty f Hne) as [e0 E0], (lastOf_nonempty f Hne) as [e1 E1].
    rewrite Hc in E0, E1. rewrite E0, E1 in Hrun. simpl in Hrun.
    apply (Draws _ fr i f (time fr - s) (Point (Some e0)) (Point (Some e1)));
      try assumption; rewrite Hc; [rewrite E0 | rewrite E1]; reflexivity.
Qed.

Lemma settled_keeps (f : feature) (elapsed : Q) :
  geometry_ (settled f elapsed) = geometry_ f /\
  name (settled f elapsed) = name f /\
  start (settled f elapsed) = start f /\
  iconScale (settled f elapsed) = iconScale f /\
  (finished f = true -> finished (settled f elapsed) = true).
Proof.
  unfold settled. destruct (isNowFinished f elapsed); simpl; auto.
Qed.

Lemma sameButFinished_refl (f : feature) : sameButFinished f f.
Proof. unfold sameButFinished. auto. Qed.

Lemma animateFeature_after (strictPoint : bool) (fr : frame) (i : nat) (f : feature) :
  sameButFinished f (after (animateFeature strictPoint fr i f)).
Proof.
  destruct (animateFeature_kind strictPoint fr i f) as [_ E | e _ _ _ _ _ E | e p0 p1 _ _ _ _ _ E];
    rewrite E; simpl; [apply sameButFinished_refl | apply settled_keeps ..].
Qed.

Lemma newPoint_is_point (strictPoint : bool) (c : option elem) (p : geometry) :
  newPoint strictPoint c = Some p -> exists c', p = Point c'.
Proof.
  unfold newPoint. destruct c as [e |]; [| destruct strictPoint]; intro H;
    inversion H; eauto.
Qed.

Lemma animateFeature_added (strictPoint : bool) (fr : frame) (i : nat) (f : feature) :
  Forall isMarker (added (animateFeature strictPoint fr i f)) /\
  length (added (animateFeature strictPoint fr i f)) =
    length (calls (animateFeature strictPoint fr i f)).
Proof.
  destruct (animateFeature_kind strictPoint fr i f)
    as [_ E | e _ _ _ _ _ E | e p0 p1 _ _ _ H0 H1 E];
    rewrite E; simpl; split; try constructor; try reflexivity.
  - destruct (newPoint_is_point _ _ _ H0) as [c ->]. unfold isMarker. simpl. eauto.
  - constructor; [| constructor].
    destruct (newPoint_is_point _ _ _ H1) as [c ->]. unfold isMarker. simpl. eauto.
Qed.

Lemma animateFeature_subject (strictPoint : bool) (fr : frame) (i : nat) (f : feature) :
  Forall (fun c => subject c = i) (calls (animateFeature strictPoint fr i f)).
Proof.
  destruct (animateFeature_kind strictPoint fr i f) as [_ E | e _ _ _ _ _ E | e p0 p1 _ _ _ _ _ E];
    rewrite E; simpl; repeat constructor.
Qed.

Lemma animateFeature_count (strictPoint : bool) (fr : frame) (i : nat) (f : feature) :
  threw (animateFeature strictPoint fr i f) = false ->
  length (calls (animateFeature strictPoint fr i f)) =
    if passesGuards fr f then 2%nat else 0%nat.
Proof.
  destruct (animateFeature_kind strictPoint fr i f) as [G E | e G _ _ _ _ E | e p0 p1 G _ _ _ _ E];
    rewrite E, G; simpl; intro H; [reflexivity | discriminate | reflexivity].
Qed.

(** ** The loop over the snapshot *)

Section Loop.

Variable strictPoint : bool.
Variable fr : frame.

Lemma animateLoop_snapshot (features : list feature) (i : nat) :
  Forall2 sameButFinished features (snapshot (animateLoop strictPoint fr i features)).
Proof.
  revert i. induction features as [| f rest IH]; intro i; simpl.
  - constructor.
  - destruct (threw (animateFeature strictPoint fr i f)); simpl.
    + constructor; [apply animateFeature_after |].
      clear. induction rest; constructor; auto using sameButFinished_refl.
    + constructor; [apply animateFeature_after | apply IH].
Qed.

Lemma animateLoop_appended (features : list feature) (i : nat) :
  Forall isMarker (appended (animateLoop strictPoint fr i features)) /\
  length (appended (animateLoop strictPoint fr i features)) =
    length (drawn (animateLoop strictPoint fr i features)).
Proof.
  revert i. induction features as [| f rest IH]; intro i; simpl.
  - split; [constructor | reflexivity].
  - destruct (animateFeature_added strictPoint fr i f) as [Hm Hl].
    destruct (threw (animateFeature strictPoint fr i f)); simpl.
    + now split.
    + destruct (IH (S i)) as [Hm' Hl']. split.
      * apply Forall_app. now split.
      * rewrite !length_app. lia.
Qed.

(** Every draw call of the loop was issued by the iteration on the feature
    its [subject] points at. *)
Lemma animateLoop_drawn (features : list feature) (i : nat) (c : drawCall) :
  In c (drawn (animateLoop strictPoint fr i features)) ->
  exists k f,
    nth_error features k = Some f /\ subject c = (i + k)%nat /\
    In c (calls (animateFeature strictPoint fr (i + k) f)).
Proof.
  revert i. induction features as [| f rest IH]; intros i Hin; simpl in Hin.
  - contradiction.
  - assert (Hhead : In c (calls (animateFeature strictPoint fr i f)) ->
                    exists k g, nth_error (f :: rest) k = Some g /\
                                subject c = (i + k)%nat /\
                                In c (calls (animateFeature strictPoint fr (i + k) g))).
    { intro H. exists 0%nat, f. rewrite Nat.add_0_r. repeat split; try assumption.
      pose proof (animateFeature_subject strictPoint fr i f) as Hs.
      rewrite Forall_forall in Hs. now apply Hs. }
    destruct (threw (animateFeature strictPoint fr i f)); simpl in Hin.
    + now apply Hhead.
    + apply in_app_or in Hin. destruct Hin as [Hin | Hin]; [now apply Hhead |].
      destruct (IH (S i) Hin) as (k & g & Hk & Hs & Hc).
      exists (S k), g. rewrite Nat.add_succ_r. simpl. auto.
Qed.

(** A feature whose iteration skips it is found unchanged at its index. *)
Lemma animateLoop_skipped (features : list feature) (i k : nat) (f : feature) :
  nth_error features k = Some f ->
  (forall j, after (animateFeature strictPoint fr j f) = f) ->
  nth_error (snapshot (animateLoop strictPoint fr i features)) k = Some f.
Proof.
  revert i k. induction features as [| g rest IH]; intros i k Hk Hskip.
  - destruct k; discriminate.
  - simpl. destruct k as [| k]; simpl in Hk.
    + inversion Hk; subst g.
      destruct (threw (animateFeature strictPoint fr i f)); simpl; now rewrite Hskip.
    + destruct (threw (animateFeature strictPoint fr i g)); simpl; [assumption |].
      now apply IH.
Qed.

Lemma animateLoop_count (features : list feature) (i : nat) :
  aborted (animateLoop strictPoint fr i features) = false ->
  length (drawn (animateLoop strictPoint fr i features)) =
    (2 * length (filter (passesGuards fr) features))%nat.
Proof.
  revert i. induction features as [| f rest IH]; intros i Hab; simpl in *.
  - reflexivity.
  - pose proof (animateFeature_count strictPoint fr i f) as Hc.
    destruct (threw (animateFeature strictPoint fr i f)); simpl in *; [discriminate |].
    rewrite length_app, (IH _ Hab), (Hc eq_refl).
    destruct (passesGuards fr f); simpl; lia.
Qed.

Lemma animateFlights_length (source : list feature) :
  length (source' (animateFlights strictPoint fr source)) =
    (length source + length (canvas (animateFlights strictPoint fr source)))%nat.
Proof.
  unfold animateFlights. simpl. rewrite length_app.
  rewrite (Forall2_length (animateLoop_snapshot source 0)).
  now rewrite (proj2 (animateLoop_appended source 0)).
Qed.

Lemma animateFlights_skipped (source : list feature) (k : nat) (f : feature) :
  nth_error source k = Some f ->
  (forall j, after (animateFeature strictPoint fr j f) = f) ->
  nth_error (source' (animateFlights strictPoint fr source)) k = Some f.
Proof.
  intros Hk Hskip. unfold animateFlights. simpl.
  rewrite nth_error_app1.
  - now apply animateLoop_skipped.
  - rewrite <- (Forall2_length (animateLoop_snapshot source 0)).
    apply nth_error_Some. congruence.
Qed.

Lemma animateFlights_canvas (source : list feature) (c : drawCall) :
  In c (canvas (animateFlights strictPoint fr source)) ->
  exists f, nth_error source (subject c) = Some f /\
            In c (calls (animateFeature strictPoint fr (subject c) f)).
Proof.
  intro Hin. unfold animateFlights in Hin. simpl in Hin.
  destruct (animateLoop_drawn source 0 c Hin) as (k & f & Hk & Hs & Hc).
  simpl in Hs, Hc. subst k. eauto.
Qed.

End Loop.

(** ** Runs of events *)

Lemma inert_skipped (strictPoint : bool) (fr : frame) (i : nat) (f : feature) :
  inert f -> animateFeature strictPoint fr i f = skipped f.
Proof.
  intros [H | H]; [now apply animateFeature_finished | now apply animateFeature_no_start].
Qed.

Section Runs.

Variable strictPoint : bool.

Lemma animateFlights_skips (fr : frame) (source : list feature) (k : nat) (f : feature) :
  nth_error source k = Some f ->
  (forall j, animateFeature strictPoint fr j f = skipped f) ->
  nth_error (source' (animateFlights strictPoint fr source)) k = Some f /\
  Forall (fun c => subject c <> k) (canvas (animateFlights strictPoint fr source)).
Proof.
  intros Hk Hskip. split.
  - apply animateFlights_skipped; [assumption |].
    intro j. now rewrite Hskip.
  - apply Forall_forall. intros c Hin Hs.
    destruct (animateFlights_canvas strictPoint fr source c Hin) as (g & Hg & Hc).
    rewrite Hs, Hk in Hg. inversion Hg; subst g.
    rewrite Hskip in Hc. contradiction.
Qed.

Lemma animateFlights_inert (fr : frame) (source : list feature) (k : nat) (f : feature) :
  nth_error source k = Some f -> inert f ->
  nth_error (source' (animateFlights strictPoint fr source)) k = Some f /\
  Forall (fun c => subject c <> k) (canvas (animateFlights strictPoint fr source)).
Proof.
  intros Hk Hi. apply animateFlights_skips; [assumption |].
  intro j. now apply inert_skipped.
Qed.

Lemma step_inert (source : list feature) (e : event) (k : nat) (f : feature) :
  nth_error source k = Some f -> inert f ->
  nth_error (fst (step strictPoint source e)) k = Some f /\
  Forall (fun c => subject c <> k) (snd (step strictPoint source e)).
Proof.
  intros Hk Hi. destruct e as [now features | fr]; simpl.
  - split; [| constructor]. unfold addLater.
    rewrite nth_error_app1; [assumption |].
    apply nth_error_Some. congruence.
  - now apply animateFlights_inert.
Qed.

Lemma run_inert (es : list event) (source : list feature) (k : nat) (f : feature) :
  nth_error source k = Some f -> inert f ->
  nth_error (fst (run strictPoint source es)) k = Some f /\
  Forall (Forall (fun c => subject c <> k)) (snd (run strictPoint source es)).
Proof.
  revert source. induction es as [| e rest IH]; intros source Hk Hi; simpl.
  - split; [assumption | constructor].
  - destruct (step_inert source e k f Hk Hi) as [H1 H2].
    destruct (step strictPoint source e) as [s1 c] eqn:Es. simpl in H1, H2.
    destruct (IH s1 H1 Hi) as [H3 H4].
    destruct (run strictPoint s1 rest) as [s2 cs]. simpl in *.
    split; [assumption | now constructor].
Qed.

End Runs.

(** ** A feature that has started *)

Lemma running_cases (strictPoint : bool) (fr : frame) (i : nat) (f : feature) (s : Q) :
  finished f = false -> start f = Some s -> s <= time fr ->
  animateFeature strictPoint fr i f = mkIteration (settled f (time fr - s)) [] [] true \/
  exists p0 p1,
    animateFeature strictPoint fr i f =
      mkIteration (settled f (time fr - s)) (markersOf fr p0 p1)
                  (linesOf fr i f (time fr - s)) false.
Proof.
  intros Hf Hs Hle. rewrite (animateFeature_running strictPoint fr i f s Hf Hs Hle).
  destruct (newPoint strictPoint (JS.first (coordsOf f))) as [p0 |];
    [| now left].
  destruct (newPoint strictPoint (JS.lastOf (coordsOf f))) as [p1 |];
    [right; now exists p0, p1 | now left].
Qed.

Lemma running_after (strictPoint : bool) (fr : frame) (i : nat) (f : feature) (s : Q) :
  finished f = false -> start f = Some s -> s <= time fr ->
  after (animateFeature strictPoint fr i f) = settled f (time fr - s).
Proof.
  intros Hf Hs Hle.
  destruct (running_cases strictPoint fr i f s Hf Hs Hle) as [E | (p0 & p1 & E)];
    now rewrite E.
Qed.

Lemma settled_finished (f : feature) (elapsed : Q) :
  finished f = false ->
  finished (settled f elapsed) = isNowFinished f elapsed.
Proof.
  intro Hf. unfold settled. destruct (isNowFinished f elapsed); [reflexivity | assumption].
Qed.

(** ** Translations *)

Lemma translateElem_compose (a b c : Q) (e : elem) :
  a + b == c ->
  elemEq (translateElem b 0 (translateElem a 0 e)) (translateElem c 0 e).
Proof.
  intro H. destruct e as [[| x [| y rest]] | n]; simpl; repeat constructor; try lra.
  induction rest; constructor; [reflexivity | assumption].
Qed.

Lemma elemEq_refl (e : elem) : elemEq e e.
Proof.
  destruct e as [c | n]; simpl; [| reflexivity].
  induction c; constructor; [reflexivity | assumption].
Qed.

Lemma sameShape_refl (g : geometry) : sameShape g g.
Proof.
  destruct g as [coords | [e |]]; simpl; [| apply elemEq_refl | exact I].
  induction coords; constructor; [apply elemEq_refl | assumption].
Qed.

Lemma translate_compose (a b c : Q) (coords : list elem) :
  a + b == c ->
  sameShape (translate b 0 (translate a 0 (LineString coords)))
            (translate c 0 (LineString coords)).
Proof.
  intro H. simpl. induction coords as [| e rest IH]; simpl; constructor;
    [now apply translateElem_compose | assumption].
Qed.

(** * The claims *)

(** ** C1: when a path of 101 points is reported finished *)

(** C1, as stated, fails at [elapsed = 5000]: a path of 101 points that
    started at 0 is not marked finished by the frame at time 5000, although
    [5000 <= elapsed] holds there. *)
Lemma C1_not_finished_at_5000 :
  ~ (finished (after (animateFeature true (sampleFrame 5000) 0 (samplePath 101 0))) = true
     <-> 5000 <= 5000 - 0).
Proof.
  intros [_ H].
  assert (Hle : 5000 <= 5000 - 0) by lra.
  apply H in Hle. vm_compute in Hle. discriminate.
Qed.

(** C1 (amended): for an unfinished path with 101 coordinate points and the
    reveal rate 0.02 points/ms, the frame sets [finished] exactly when
    [elapsed >= 5050] ms; it leaves the path unfinished at [elapsed = 4999]
    ms and at [elapsed = 5000] ms. *)
Theorem C1_finished_from_5050 :
  forall (strictPoint : bool) (fr : frame) (i : nat) (f : feature) (s : Q),
    finished f = false -> start f = Some s -> length (coordsOf f) = 101%nat ->
    (finished (after (animateFeature strictPoint fr i f)) = true <-> 5050 <= time fr - s) /\
    (time fr - s == 4999 -> finished (after (animateFeature strictPoint fr i f)) = false) /\
    (time fr - s == 5000 -> finished (after (animateFeature strictPoint fr i f)) = false).
Proof.
  intros strictPoint fr i f s Hf Hs Hlen.
  assert (Hiff : finished (after (animateFeature strictPoint fr i f)) = true
                 <-> 5050 <= time fr - s).
  { destruct (Qlt_le_dec (time fr) s) as [Hlt | Hle].
    - rewrite (animateFeature_not_started strictPoint fr i f s Hs Hlt). simpl.
      rewrite Hf. split; [discriminate | intro; lra].
    - rewrite (running_after strictPoint fr i f s Hf Hs Hle).
      rewrite (settled_finished f _ Hf), isNowFinished_iff, Hlen.
      unfold pointsPerMs. change (inject_Z (Z.of_nat 101)) with 101.
      split; intro; lra. }
  split; [exact Hiff |].
  split; intro He;
    (destruct (finished (after (animateFeature strictPoint fr i f))); [| reflexivity];
     assert (5050 <= time fr - s) by (now apply Hiff); lra).
Qed.

Lemma C1_finished_from_5050_witness :
  (finished (after (animateFeature true (sampleFrame 5050) 0 (samplePath 101 0))) = true
   <-> 5050 <= time (sampleFrame 5050) - 0) /\
  finished (after (animateFeature true (sampleFrame 4999) 0 (samplePath 101 0))) = false /\
  finished (after (animateFeature true (sampleFrame 5000) 0 (samplePath 101 0))) = false.
Proof.
  split; [| split].
  - apply (C1_finished_from_5050 true (sampleFrame 5050) 0%nat (samplePath 101 0) 0);
      reflexivity.
  - pose proof (C1_finished_from_5050 true (sampleFrame 4999) 0%nat (samplePath 101 0) 0
                  eq_refl eq_refl eq_refl) as (_ & H & _).
    apply H. reflexivity.
  - pose proof (C1_finished_from_5050 true (sampleFrame 5000) 0%nat (samplePath 101 0) 0
                  eq_refl eq_refl eq_refl) as (_ & _ & H).
    apply H. reflexivity.
Defined.

(** ** C4: the visible prefix *)

(** C4: for every path and every frame time [now >= startTime], the number
    of visible points is [min(floor((now - startTime) * revealRate),
    len(coordinates))], it lies between 0 and [len(coordinates)], and the
    line built is the prefix of the coordinates of that length; when the
    path is not finished (the loop draws no other), the draw calls of its
    iteration carry exactly that prefix, moved to the wrapped worlds next to
    the view, the width of the projection's extent not being zero. *)
Theorem C4_visible_prefix :
  forall (strictPoint : bool) (fr : frame) (i : nat) (f : feature) (s : Q),
    start f = Some s -> s <= time fr ->
    let n := Z.min (Qfloor ((time fr - s) * pointsPerMs))
                   (Z.of_nat (length (coordsOf f))) in
    let prefix := firstn (Z.to_nat n) (coordsOf f) in
    (0 <= n <= Z.of_nat (length (coordsOf f)))%Z /\
    currentLine f (time fr - s) = prefix /\
    Z.of_nat (length (currentLine f (time fr - s))) = n /\
    (finished f = false -> ~ worldWidth fr == 0 ->
     Forall (fun c => exists dx, sameShape (shape c) (translate dx 0 (LineString prefix)))
            (calls (animateFeature strictPoint fr i f)) /\
     (threw (animateFeature strictPoint fr i f) = false ->
      map shape (calls (animateFeature strictPoint fr i f)) =
        [translate (inject_Z (offset fr) * worldWidth fr) 0 (LineString prefix);
         translate (worldWidth fr) 0
           (translate (inject_Z (offset fr) * worldWidth fr) 0 (LineString prefix))])).
Proof.
  intros strictPoint fr i f s Hs Hle n prefix.
  assert (H0 : 0 <= time fr - s) by lra.
  pose proof (visiblePoints_bounds f _ H0) as Hb.
  pose proof (currentLine_prefix f _ H0) as Hp.
  unfold visiblePoints, elapsedPoints in Hb, Hp. fold n in Hb, Hp. fold prefix in Hp.
  split; [exact Hb |]. split; [exact Hp |]. split.
  { rewrite Hp. unfold prefix. rewrite length_firstn. lia. }
  intros Hf _.
  destruct (running_cases strictPoint fr i f s Hf Hs Hle) as [E | (p0 & p1 & E)];
    rewrite E; cbn [calls threw].
  - split; [constructor | discriminate].
  - unfold linesOf. rewrite Hp. split; [| reflexivity].
    constructor; [| constructor; [| constructor]]; cbn [shape].
    + exists (inject_Z (offset fr) * worldWidth fr). apply sameShape_refl.
    + exists (inject_Z (offset fr) * worldWidth fr + worldWidth fr).
      apply translate_compose. reflexivity.
Qed.

Lemma C4_visible_prefix_witness :
  currentLine (samplePath 101 0) (time (sampleFrame 120) - 0) =
    firstn 2 (coordsOf (samplePath 101 0)) /\
  map shape (calls (animateFeature true (sampleFrame 120) 0 (samplePath 101 0))) =
    [translate (inject_Z (offset (sampleFrame 120)) * worldWidth (sampleFrame 120)) 0
       (LineString (firstn 2 (coordsOf (samplePath 101 0))));
     translate (worldWidth (sampleFrame 120)) 0
       (translate (inject_Z (offset (sampleFrame 120)) * worldWidth (sampleFrame 120)) 0
          (LineString (firstn 2 (coordsOf (samplePath 101 0)))))].
Proof.
  assert (Hle : 0 <= time (sampleFrame 120)) by (vm_compute; discriminate).
  assert (Hw : ~ worldWidth (sampleFrame 120) == 0) by (vm_compute; discriminate).
  pose proof (C4_visible_prefix true (sampleFrame 120) 0%nat (samplePath 101 0) 0
                eq_refl Hle) as (_ & Hline & _ & Hdraw).
  split; [exact Hline |].
  exact (proj2 (Hdraw eq_refl Hw) eq_refl).
Defined.

(** ** C5: the two wrapped draws *)

(** C5: on a frame, an unfinished path that is drawn (it has started and its
    iteration completes) gets exactly two draw calls for its visible prefix:
    the first translated by [k * worldWidth], the second by
    [(k + 1) * worldWidth], where [k = floor(viewCenterX / worldWidth)]. *)
Theorem C5_two_wrapped_draws :
  forall (strictPoint : bool) (fr : frame) (i : nat) (f : feature) (s : Q),
    finished f = false -> start f = Some s -> s <= time fr ->
    threw (animateFeature strictPoint fr i f) = false ->
    ~ worldWidth fr == 0 ->
    let k := Qfloor (centerX fr / worldWidth fr) in
    let prefix := LineString (currentLine f (time fr - s)) in
    exists g1 g2,
      calls (animateFeature strictPoint fr i f) = [mkDraw i g1; mkDraw i g2] /\
      g1 = translate (inject_Z k * worldWidth fr) 0 prefix /\
      g2 = translate (worldWidth fr) 0 g1 /\
      sameShape g2 (translate (inject_Z (k + 1) * worldWidth fr) 0 prefix).
Proof.
  intros strictPoint fr i f s Hf Hs Hle Hthrew _ k prefix.
  destruct (running_cases strictPoint fr i f s Hf Hs Hle) as [E | (p0 & p1 & E)];
    rewrite E in *; cbn [calls threw] in *; [discriminate |].
  unfold linesOf. fold k. fold prefix.
  eexists. eexists. split; [reflexivity |].
  split; [reflexivity |]. split; [reflexivity |].
  apply translate_compose. rewrite inject_Z_plus. change (inject_Z 1) with 1.
  unfold k, offset. ring.
Qed.

Lemma C5_two_wrapped_draws_witness :
  exists g1 g2,
    calls (animateFeature true (sampleFrame 120) 0 (samplePath 101 0)) =
      [mkDraw 0 g1; mkDraw 0 g2] /\
    g1 = translate (inject_Z (Qfloor (0 / 40075016.68)) * 40075016.68) 0
           (LineString (currentLine (samplePath 101 0) (120 - 0))) /\
    g2 = translate 40075016.68 0 g1 /\
    sameShape g2
      (translate (inject_Z (Qfloor (0 / 40075016.68) + 1) * 40075016.68) 0
         (LineString (currentLine (samplePath 101 0) (120 - 0)))).
Proof.
  apply (C5_two_wrapped_draws true (sampleFrame 120) 0%nat (samplePath 101 0) 0);
    [reflexivity | reflexivity | vm_compute; discriminate | reflexivity
    | vm_compute; discriminate].
Defined.

(** ** C6: finished paths are not drawn *)

(** C6: a path whose [finished] attribute is true produces no draw call from
    the animation loop: its iteration issues none, no draw call of the
    frame is made on its behalf, and none is in any later frame of any run
    of events. *)
Theorem C6_finished_never_drawn :
  forall (strictPoint : bool) (source : list feature) (k : nat) (f : feature),
    nth_error source k = Some f -> finished f = true ->
    (forall fr, calls (animateFeature strictPoint fr k f) = []) /\
    (forall fr, Forall (fun c => subject c <> k)
                       (canvas (animateFlights strictPoint fr source))) /\
    (forall es, Forall (Forall (fun c => subject c <> k))
                       (snd (run strictPoint source es))).
Proof.
  intros strictPoint source k f Hk Hf.
  assert (Hi : inert f) by now left.
  split; [| split].
  - intro fr. now rewrite inert_skipped.
  - intro fr. now apply animateFlights_inert with (f := f).
  - intro es. now apply run_inert with (f := f).
Qed.

Lemma C6_finished_never_drawn_witness :
  calls (animateFeature true (sampleFrame 120) 0 (set_finished (samplePath 3 0) true)) = [] /\
  Forall (fun c => subject c <> 0%nat)
         (canvas (animateFlights true (sampleFrame 120)
                    [set_finished (samplePath 3 0) true; samplePath 3 0])).
Proof.
  pose proof (C6_finished_never_drawn true
                [set_finished (samplePath 3 0) true; samplePath 3 0] 0%nat
                (set_finished (samplePath 3 0) true) eq_refl eq_refl) as (Hit & Hframe & _).
  split; [apply Hit | apply Hframe].
Defined.

(** ** C7: [finished] is a one-way latch *)

(** C7: with [startTime] fixed, once [isNowFinished] holds at some elapsed
    time it holds at every later one; a frame at which it holds leaves the
    path with [finished] set; and a path that is finished stays as it is,
    finished, under any sequence of frame ticks (and admissions). *)
Theorem C7_finished_is_latch :
  forall (strictPoint : bool),
    (forall f t t', t <= t' -> isNowFinished f t = true -> isNowFinished f t' = true) /\
    (forall fr i f s, start f = Some s -> isNowFinished f (time fr - s) = true ->
                      finished (after (animateFeature strictPoint fr i f)) = true) /\
    (forall fr i f, finished f = true ->
                    finished (after (animateFeature strictPoint fr i f)) = true) /\
    (forall es source k f, nth_error source k = Some f -> finished f = true ->
                           nth_error (fst (run strictPoint source es)) k = Some f).
Proof.
  intro strictPoint. split; [| split; [| split]].
  - intros f t t' Hle H. apply isNowFinished_iff. apply isNowFinished_iff in H.
    unfold pointsPerMs in *. lra.
  - intros fr i f s Hs H.
    destruct (finished f) eqn:Hf.
    + now rewrite animateFeature_finished.
    + assert (Hle : s <= time fr).
      { pose proof (coordsLength_nonneg f) as Hn.
        apply isNowFinished_iff in H. unfold coordsLength in Hn.
        unfold pointsPerMs in H. lra. }
      rewrite (running_after strictPoint fr i f s Hf Hs Hle).
      now rewrite settled_finished.
  - intros fr i f Hf. now rewrite animateFeature_finished.
  - intros es source k f Hk Hf. apply run_inert; [assumption | now left].
Qed.

Lemma C7_finished_is_latch_witness :
  isNowFinished (samplePath 3 0) 200 = true /\
  finished (after (animateFeature true (sampleFrame 150) 0 (samplePath 3 0))) = true /\
  nth_error (fst (run true [set_finished (samplePath 3 0) true]
                      [PostRender (sampleFrame 10); PostRender (sampleFrame 500)])) 0
    = Some (set_finished (samplePath 3 0) true).
Proof.
  pose proof (C7_finished_is_latch true) as (Hmono & Hset & _ & Hrun).
  split; [| split].
  - apply (Hmono (samplePath 3 0) 150 200); [vm_compute; discriminate | reflexivity].
  - apply (Hset (sampleFrame 150) 0%nat (samplePath 3 0) 0); reflexivity.
  - apply Hrun; reflexivity.
Defined.

(** ** C8: before the start time *)

(** C8, as stated, fails 10 ms after the start of a path of three points:
    no point is visible yet, but the path is not skipped: draw calls are
    issued and markers are emitted. *)
Lemma C8_drawn_with_no_visible_point :
  currentLine (samplePath 3 0) (10 - 0) = [] /\
  ~ (calls (animateFeature true (sampleFrame 10) 0 (samplePath 3 0)) = [] /\
     added (animateFeature true (sampleFrame 10) 0 (samplePath 3 0)) = []).
Proof.
  split; [reflexivity |]. intros [H _]. vm_compute in H. discriminate.
Qed.

(** C8 (amended): for a frame time [now < path.startTime] the elapsed time
    fails the guard and the path is skipped for that frame: no draw call, no
    marker, the path untouched, also within the whole frame.  The skip is
    tied to the sign of the elapsed time, not to the visible count: less
    than 50 ms after the start an unfinished path with coordinates has no
    visible point and still gets two draw calls (of the empty prefix) and
    two markers. *)
Theorem C8_skipped_before_start :
  forall (strictPoint : bool) (fr : frame) (f : feature) (s : Q),
    start f = Some s ->
    (time fr < s ->
     JS.geq0 (elapsedTime fr f) = false /\
     (forall i, animateFeature strictPoint fr i f = skipped f) /\
     (forall source k, nth_error source k = Some f ->
        nth_error (source' (animateFlights strictPoint fr source)) k = Some f /\
        Forall (fun c => subject c <> k) (canvas (animateFlights strictPoint fr source)))) /\
    (finished f = false -> s <= time fr -> time fr - s < 50 -> coordsOf f <> [] ->
     currentLine f (time fr - s) = [] /\
     forall i,
       calls (animateFeature strictPoint fr i f) =
         [mkDraw i (LineString []); mkDraw i (LineString [])] /\
       length (added (animateFeature strictPoint fr i f)) = 2%nat).
Proof.
  intros strictPoint fr f s Hs. split.
  - intro Hlt.
    assert (Hskip : forall i, animateFeature strictPoint fr i f = skipped f).
    { intro i. now apply animateFeature_not_started with (s := s). }
    split; [| split].
    + unfold elapsedTime. rewrite Hs. simpl. apply Qle_bool_false. lra.
    + exact Hskip.
    + intros source k Hk. now apply animateFlights_skips.
  - intros Hf Hle Hshort Hne.
    assert (H0 : 0 <= time fr - s) by lra.
    assert (Hline : currentLine f (time fr - s) = []).
    { rewrite (currentLine_prefix f _ H0). unfold visiblePoints.
      assert (Hfl : Qfloor (elapsedPoints (time fr - s)) = 0%Z).
      { assert (Hlo : (0 <= Qfloor (elapsedPoints (time fr - s)))%Z)
          by (apply Qfloor_nonneg, elapsedPoints_nonneg, H0).
        assert (Hhi : (Qfloor (elapsedPoints (time fr - s)) < 1)%Z).
        { rewrite Zlt_Qlt. apply Qle_lt_trans with (elapsedPoints (time fr - s)).
          - apply Qfloor_le.
          - unfold elapsedPoints, pointsPerMs. change (inject_Z 1) with 1. lra. }
        lia. }
      rewrite Hfl. replace (Z.min 0 _) with 0%Z by lia. reflexivity. }
    split; [exact Hline |]. intro i.
    destruct (animateFeature_drawing strictPoint fr i f s Hf Hs Hle Hne)
      as (e0 & e1 & _ & _ & E).
    rewrite E. cbn [calls added]. unfold linesOf. rewrite Hline. split; reflexivity.
Qed.

Lemma C8_skipped_before_start_witness :
  animateFeature true (sampleFrame 10) 0 (samplePath 3 20) = skipped (samplePath 3 20) /\
  currentLine (samplePath 3 0) (time (sampleFrame 10) - 0) = [].
Proof.
  split.
  - assert (Hlt : time (sampleFrame 10) < 20) by (vm_compute; reflexivity).
    pose proof (C8_skipped_before_start true (sampleFrame 10) (samplePath 3 20) 20 eq_refl)
      as [Hbefore _].
    apply (Hbefore Hlt).
  - apply (C8_skipped_before_start true (sampleFrame 10) (samplePath 3 0) 0);
      [reflexivity | reflexivity | vm_compute; discriminate | vm_compute; reflexivity
      | vm_compute; discriminate].
Defined.

(** ** C9: a path without coordinates *)

(** C9, as stated, fails on a path without coordinates that starts at 0, at
    the frame of time 0: whether the library's point constructor raises on
    the undefined marker position or not, it is not the case that the frame
    both completes and issues no draw call for the path. *)
Lemma C9_empty_path_drawn_or_raised :
  ~ (threw (animateFeature true (sampleFrame 0) 0 (samplePath 0 0)) = false /\
     calls (animateFeature true (sampleFrame 0) 0 (samplePath 0 0)) = []) /\
  ~ (threw (animateFeature false (sampleFrame 0) 0 (samplePath 0 0)) = false /\
     calls (animateFeature false (sampleFrame 0) 0 (samplePath 0 0)) = []).
Proof.
  split; intros [H1 H2]; vm_compute in H1, H2; discriminate.
Qed.

(** C9 (amended): a path whose coordinate sequence is empty is marked
    finished by the first frame whose time has reached its start; no point
    of it is drawn: every draw call issued for it carries the empty line.
    The frame reads the first and last coordinate for the markers, which are
    undefined: where the point constructor raises on that, the iteration
    stops there without draw call or marker; where it does not, the
    iteration issues two draw calls of the empty line and stores two
    markers. *)
Theorem C9_empty_path :
  forall (strictPoint : bool) (fr : frame) (i : nat) (f : feature) (s : Q),
    coordsOf f = [] -> finished f = false -> start f = Some s -> s <= time fr ->
    finished (after (animateFeature strictPoint fr i f)) = true /\
    Forall (fun c => shape c = LineString []) (calls (animateFeature strictPoint fr i f)) /\
    threw (animateFeature strictPoint fr i f) = strictPoint /\
    (threw (animateFeature strictPoint fr i f) = true ->
     calls (animateFeature strictPoint fr i f) = [] /\
     added (animateFeature strictPoint fr i f) = []) /\
    (threw (animateFeature strictPoint fr i f) = false ->
     calls (animateFeature strictPoint fr i f) =
       [mkDraw i (LineString []); mkDraw i (LineString [])] /\
     added (animateFeature strictPoint fr i f) =
       [iconFeature fr (Point None); iconFeature fr (Point None)]).
Proof.
  intros strictPoint fr i f s Hc Hf Hs Hle.
  assert (H0 : 0 <= time fr - s) by lra.
  assert (Hfin : isNowFinished f (time fr - s) = true).
  { apply isNowFinished_iff. rewrite Hc. simpl. unfold pointsPerMs.
    change (inject_Z 0) with 0. lra. }
  assert (Hline : currentLine f (time fr - s) = []).
  { rewrite (currentLine_prefix f _ H0), Hc. apply firstn_nil. }
  pose proof (animateFeature_running strictPoint fr i f s Hf Hs Hle) as E.
  rewrite Hc in E. unfold JS.first, JS.lastOf in E. simpl in E.
  unfold settled in E. rewrite Hfin in E.
  destruct strictPoint; rewrite E; cbn [after calls added threw finished set_finished].
  - repeat split; try constructor; discriminate.
  - unfold linesOf, markersOf. rewrite Hline. simpl.
    repeat split; try discriminate; repeat constructor.
Qed.

Lemma C9_empty_path_witness :
  finished (after (animateFeature true (sampleFrame 0) 0 (samplePath 0 0))) = true /\
  calls (animateFeature false (sampleFrame 0) 0 (samplePath 0 0)) =
    [mkDraw 0 (LineString []); mkDraw 0 (LineString [])].
Proof.
  split.
  - apply (C9_empty_path true (sampleFrame 0) 0%nat (samplePath 0 0) 0);
      [reflexivity | reflexivity | reflexivity | vm_compute; discriminate].
  - apply (C9_empty_path false (sampleFrame 0) 0%nat (samplePath 0 0) 0);
      [reflexivity | reflexivity | reflexivity | vm_compute; discriminate | reflexivity].
Defined.

(** ** C3: markers are stored in the source *)



(** ** C10: the markers of a frame never animate *)

(** C10: every feature the frame loop adds to the source carries no [start]
    (and is not finished); for a feature without [start] the elapsed time
    fails the [>= 0] guard on every frame, so its iteration does nothing;
    under any run of events it stays in the source as it is, unfinished,
    and no draw call is ever made on its behalf; and a frame adds as many
    features as it issues draw calls, two per path that passes the guards
    when the frame completes. *)
Theorem C10_frame_markers_never_animate :
  forall (strictPoint : bool),
    (forall fr source k g,
        nth_error (source' (animateFlights strictPoint fr source)) (length source + k) = Some g ->
        start g = None /\ finished g = false) /\
    (forall fr i g, start g = None ->
        JS.geq0 (elapsedTime fr g) = false /\
        animateFeature strictPoint fr i g = skipped g) /\
    (forall es source k g, nth_error source k = Some g -> start g = None ->
        nth_error (fst (run strictPoint source es)) k = Some g /\
        Forall (Forall (fun c => subject c <> k)) (snd (run strictPoint source es))) /\
    (forall fr source,
        length (source' (animateFlights strictPoint fr source)) =
          (length source + length (canvas (animateFlights strictPoint fr source)))%nat /\
        (rendered (animateFlights strictPoint fr source) = true ->
         length (source' (animateFlights strictPoint fr source)) =
           (length source + 2 * length (filter (passesGuards fr) source))%nat)).
Proof.
  intro strictPoint. split; [| split; [| split]].
  - intros fr source k g Hk. unfold animateFlights in Hk. simpl in Hk.
    pose proof (Forall2_length (animateLoop_snapshot strictPoint fr source 0)) as Hlen.
    rewrite Hlen, nth_error_app2 in Hk by lia.
    apply nth_error_In in Hk.
    destruct (animateLoop_appended strictPoint fr source 0) as [Hm _].
    rewrite Forall_forall in Hm. destruct (Hm g Hk) as (_ & Hfin & Hst). now split.
  - intros fr i g Hs. split.
    + unfold elapsedTime. now rewrite Hs.
    + now apply animateFeature_no_start.
  - intros es source k g Hk Hs. apply run_inert; [assumption | now right].
  - intros fr source. split; [apply animateFlights_length |].
    intro Hr. rewrite animateFlights_length. f_equal.
    unfold animateFlights in *. simpl in *.
    apply animateLoop_count. now destruct (aborted (animateLoop strictPoint fr 0 source)).
Qed.

Lemma C10_frame_markers_never_animate_witness :
  (start (iconFeature (sampleFrame 120) (Point (Some (Coord [0; 0])))) = None /\
   finished (iconFeature (sampleFrame 120) (Point (Some (Coord [0; 0])))) = false) /\
  JS.geq0 (elapsedTime (sampleFrame 500)
             (iconFeature (sampleFrame 120) (Point (Some (Coord [0; 0]))))) = false /\
  nth_error (fst (run true (source' (animateFlights true (sampleFrame 120) [samplePath 3 0]))
                      [PostRender (sampleFrame 140); PostRender (sampleFrame 160)])) 1
    = Some (iconFeature (sampleFrame 120) (Point (Some (Coord [0; 0])))) /\
  length (source' (animateFlights true (sampleFrame 120) [samplePath 3 0])) =
    (1 + 2 * 1)%nat.
Proof.
  pose proof (C10_frame_markers_never_animate true) as (Hadd & Hguard & Hrun & Hacc).
  split; [| split; [| split]].
  - exact (Hadd (sampleFrame 120) [samplePath 3 0] 0%nat
             (iconFeature (sampleFrame 120) (Point (Some (Coord [0; 0])))) eq_refl).
  - exact (proj1 (Hguard (sampleFrame 500) 0%nat
                    (iconFeature (sampleFrame 120) (Point (Some (Coord [0; 0])))) eq_refl)).
  - apply Hrun; reflexivity.
  - apply (Hacc (sampleFrame 120) [samplePath 3 0]). reflexivity.
Defined.

(** ** C2: start times within a group *)

Lemma duration_set_start (f : feature) (s : Q) : duration (set_start f s) = duration f.
Proof. reflexivity. Qed.

Lemma addLaterLoop_head (features : list feature) (now : Q) (f : feature) :
  nth_error (addLaterLoop now features) 0 = Some f -> start f = Some now.
Proof.
  destruct features as [| a rest]; simpl; intro H; [discriminate |].
  now inversion H.
Qed.

Lemma addLaterLoop_consecutive (features : list feature) (now : Q) (k : nat) (f g : feature) :
  nth_error (addLaterLoop now features) k = Some f ->
  nth_error (addLaterLoop now features) (S k) = Some g ->
  exists s, start f = Some s /\ start g = Some (s + duration f).
Proof.
  revert now k. induction features as [| a rest IH]; intros now k Hf Hg.
  - destruct k; discriminate.
  - destruct k as [| k]; simpl in Hf, Hg.
    + inversion Hf; subst f. exists now. split; [reflexivity |].
      rewrite duration_set_start. now apply addLaterLoop_head with (features := rest).
    + now apply (IH (now + duration a) k).
Qed.

Lemma duration_marker (c : coordinate) (nm : option string) :
  length c = 2%nat ->
  duration (mkFeature (Point (Some (Coord c))) nm false None None) == 50.
Proof.
  intro H. unfold duration, coordsLength, coordsOf. simpl.
  rewrite length_map, H. reflexivity.
Qed.

Lemma loader_lines (geometries : list (list coordinate)) (now : Q) (j : nat)
      (c1 c2 : list coordinate) :
  nth_error geometries j = Some c1 ->
  nth_error geometries (S j) = Some c2 ->
  length (getFirstCoordinate c2) = 2%nat ->
  length (getLastCoordinate c2) = 2%nat ->
  exists s1 s2,
    nth_error (addLaterLoop now (loaderFeatures geometries)) (3 * j + 2)
      = Some (set_start (lineFeature c1) s1) /\
    nth_error (addLaterLoop now (loaderFeatures geometries)) (3 * j + 5)
      = Some (set_start (lineFeature c2) s2) /\
    s2 == s1 + duration (lineFeature c1) + 100.
Proof.
  revert geometries now. induction j as [| j IH]; intros geometries now H1 H2 Hfirst Hlast.
  - destruct geometries as [| a [| b rest]]; try discriminate.
    simpl in H1, H2. inversion H1; inversion H2; subst a b.
    eexists. eexists. simpl. split; [reflexivity |]. split; [reflexivity |].
    pose proof (duration_marker _ (Some "start"%string) Hfirst) as D1.
    pose proof (duration_marker _ (Some "end"%string) Hlast) as D2.
    fold (startIcon c2) in D1. fold (endIcon c2) in D2.
    rewrite <- !Qplus_assoc. rewrite D1, D2. ring.
  - destruct geometries as [| a rest]; [discriminate |].
    simpl in H1, H2.
    destruct (IH rest (now + duration (startIcon a) + duration (endIcon a)
                       + duration (lineFeature a)) H1 H2 Hfirst Hlast)
      as (s1 & s2 & E1 & E2 & E).
    exists s1, s2.
    replace (3 * S j + 2)%nat with (S (S (S (3 * j + 2)))) by lia.
    replace (3 * S j + 5)%nat with (S (S (S (3 * j + 5)))) by lia.
    simpl. auto.
Qed.

(** C2, as stated, fails on the group the loader builds for two sub-paths of
    51 and 31 points, admitted at clock reading 1000: the sub-paths are the
    third and the sixth feature of the group, and the second starts 2600 ms
    after the first, not 2500 ms. *)
Lemma C2_second_subpath_after_2600 :
  exists s1 s2,
    nth_error (addLater 1000 (loaderFeatures [sampleCoords 51; sampleCoords 31]) []) 2
      = Some (set_start (lineFeature (sampleCoords 51)) s1) /\
    nth_error (addLater 1000 (loaderFeatures [sampleCoords 51; sampleCoords 31]) []) 5
      = Some (set_start (lineFeature (sampleCoords 31)) s2) /\
    s2 == s1 + 2600 /\
    ~ s2 == s1 + 2500.
Proof.
  eexists. eexists. split; [reflexivity |]. split; [reflexivity |].
  split; [vm_compute; reflexivity | vm_compute; discriminate].
Qed.

(** C2 (amended): for every list of features admitted together by
    [addLater], each feature's start equals the previous feature's start
    plus the previous feature's duration
    [(coordinates.length - 1) / pointsPerMs].  The group the loader builds
    holds, for each sub-path, a start marker, an end marker and then the
    line; a marker's coordinate array has two entries, so it lasts 50 ms.
    Hence each sub-path's start equals the previous sub-path's start plus
    [(pointCount - 1) / pointsPerMs] plus 100 ms; for point counts 51 and 31
    sub-path 2 starts 2600 ms after sub-path 1. *)
Theorem C2_staggered_starts :
  forall (now : Q) (source : list feature),
    (forall features k f g,
        nth_error (addLater now features source) (length source + k) = Some f ->
        nth_error (addLater now features source) (length source + S k) = Some g ->
        exists s, start f = Some s /\
                  start g = Some (s + (coordsLength f - 1) / pointsPerMs)) /\
    (forall geometries j c1 c2,
        nth_error geometries j = Some c1 ->
        nth_error geometries (S j) = Some c2 ->
        length (getFirstCoordinate c2) = 2%nat ->
        length (getLastCoordinate c2) = 2%nat ->
        exists s1 s2,
          nth_error (addLater now (loaderFeatures geometries) source)
                    (length source + (3 * j + 2))
            = Some (set_start (lineFeature c1) s1) /\
          nth_error (addLater now (loaderFeatures geometries) source)
                    (length source + (3 * j + 5))
            = Some (set_start (lineFeature c2) s2) /\
          s2 == s1 + (inject_Z (Z.of_nat (length c1)) - 1) / pointsPerMs + 100 /\
          (length c1 = 51%nat -> s2 == s1 + 2600)).
Proof.
  intros now source. split.
  - intros features k f g Hf Hg. unfold addLater in Hf, Hg.
    rewrite nth_error_app2 in Hf, Hg by lia.
    replace (length source + k - length source)%nat with k in Hf by lia.
    replace (length source + S k - length source)%nat with (S k) in Hg by lia.
    exact (addLaterLoop_consecutive features now k f g Hf Hg).
  - intros geometries j c1 c2 H1 H2 Hfirst Hlast.
    destruct (loader_lines geometries now j c1 c2 H1 H2 Hfirst Hlast)
      as (s1 & s2 & E1 & E2 & E).
    exists s1, s2. unfold addLater.
    rewrite !nth_error_app2 by lia.
    replace (length source + (3 * j + 2) - length source)%nat with (3 * j + 2)%nat by lia.
    replace (length source + (3 * j + 5) - length source)%nat with (3 * j + 5)%nat by lia.
    assert (Ed : duration (lineFeature c1)
                 = (inject_Z (Z.of_nat (length c1)) - 1) / pointsPerMs).
    { unfold duration, coordsLength, coordsOf. simpl. now rewrite length_map. }
    rewrite Ed in E.
    repeat split; try assumption.
    intro Hlen. rewrite E, Hlen. unfold pointsPerMs.
    change (inject_Z (Z.of_nat 51)) with 51. field.
Qed.

Lemma C2_staggered_starts_witness :
  (exists s,
      start (set_start (startIcon (sampleCoords 51)) 1000) = Some s /\
      start (set_start (endIcon (sampleCoords 51)) (1000 + duration (startIcon (sampleCoords 51))))
        = Some (s + (coordsLength (set_start (startIcon (sampleCoords 51)) 1000) - 1)
                    / pointsPerMs)) /\
  (exists s1 s2,
      nth_error (addLater 1000 (loaderFeatures [sampleCoords 51; sampleCoords 31]) [])
                (0 + (3 * 0 + 2))
        = Some (set_start (lineFeature (sampleCoords 51)) s1) /\
      nth_error (addLater 1000 (loaderFeatures [sampleCoords 51; sampleCoords 31]) [])
                (0 + (3 * 0 + 5))
        = Some (set_start (lineFeature (sampleCoords 31)) s2) /\
      s2 == s1 + (inject_Z (Z.of_nat (length (sampleCoords 51))) - 1) / pointsPerMs + 100 /\
      (length (sampleCoords 51) = 51%nat -> s2 == s1 + 2600)).
Proof.
  pose proof (C2_staggered_starts 1000 []) as [Hcons Hloader].
  split.
  - apply (Hcons (loaderFeatures [sampleCoords 51; sampleCoords 31]) 0%nat); reflexivity.
  - apply (Hloader [sampleCoords 51; sampleCoords 31] 0%nat); reflexivity.
Defined.

(** * Further properties of the animation loop *)

(** ** The reveal over time *)

Lemma firstn_le_prefix {A : Type} (l : list A) (a b : nat) :
  (a <= b)%nat -> exists rest, firstn b l = firstn a l ++ rest.
Proof.
  revert a b. induction l as [| x l IH]; intros a b Hab.
  - exists []. now rewrite !firstn_nil.
  - destruct a as [| a].
    + now exists (firstn b (x :: l)).
    + destruct b as [| b]; [lia |].
      destruct (IH a b) as [rest E]; [lia |].
      exists rest. simpl. now rewrite E.
Qed.

Lemma visiblePoints_mono (f : feature) (t t' : Q) :
  t <= t' -> (visiblePoints f t <= visiblePoints f t')%Z.
Proof.
  intro H. unfold visiblePoints.
  assert (Qfloor (elapsedPoints t) <= Qfloor (elapsedPoints t'))%Z.
  { apply Qfloor_resp_le. unfold elapsedPoints, pointsPerMs. lra. }
  lia.
Qed.

(** X1: the visible part of a path only grows: at a later frame time the
    line built extends the line built at an earlier one, so the number of
    visible points never decreases. *)
Theorem X1_reveal_grows :
  forall (f : feature) (s : Q) (fr fr' : frame),
    start f = Some s -> s <= time fr -> time fr <= time fr' ->
    (exists rest, currentLine f (time fr' - s) = currentLine f (time fr - s) ++ rest) /\
    (length (currentLine f (time fr - s)) <= length (currentLine f (time fr' - s)))%nat.
Proof.
  intros f s fr fr' _ Hs Hle.
  assert (H0 : 0 <= time fr - s) by lra.
  assert (H0' : 0 <= time fr' - s) by lra.
  assert (Hm : (visiblePoints f (time fr - s) <= visiblePoints f (time fr' - s))%Z)
    by (apply visiblePoints_mono; lra).
  rewrite (currentLine_prefix f _ H0), (currentLine_prefix f _ H0').
  destruct (firstn_le_prefix (coordsOf f) (Z.to_nat (visiblePoints f (time fr - s)))
              (Z.to_nat (visiblePoints f (time fr' - s)))) as [rest E]; [lia |].
  split; [now exists rest |].
  rewrite E, length_app. lia.
Qed.

Lemma X1_reveal_grows_witness :
  (length (currentLine (samplePath 5 0) (time (sampleFrame 60) - 0))
   <= length (currentLine (samplePath 5 0) (time (sampleFrame 170) - 0)))%nat.
Proof.
  apply (X1_reveal_grows (samplePath 5 0) 0 (sampleFrame 60) (sampleFrame 170));
    [reflexivity | vm_compute; discriminate | vm_compute; discriminate].
Defined.

(** The whole line is built exactly when the finishing test holds. *)
Lemma full_line_iff (f : feature) (elapsed : Q) :
  0 <= elapsed ->
  (isNowFinished f elapsed = true <-> currentLine f elapsed = coordsOf f).
Proof.
  intro H0. rewrite (currentLine_prefix f _ H0), isNowFinished_iff.
  fold (elapsedPoints elapsed). unfold visiblePoints.
  pose proof (Qfloor_nonneg _ (elapsedPoints_nonneg _ H0)) as Hfl.
  split.
  - intro Hle.
    assert (Z.of_nat (length (coordsOf f)) <= Qfloor (elapsedPoints elapsed))%Z.
    { rewrite <- (Qfloor_Z (Z.of_nat (length (coordsOf f)))). now apply Qfloor_resp_le. }
    rewrite Z.min_r by lia. rewrite Nat2Z.id. apply firstn_all.
  - intro E. apply (f_equal (@length elem)) in E. rewrite length_firstn in E.
    assert (Hge : (Z.of_nat (length (coordsOf f)) <= Qfloor (elapsedPoints elapsed))%Z) by lia.
    apply Qle_trans with (inject_Z (Qfloor (elapsedPoints elapsed))).
    + now rewrite <- Zle_Qle.
    + apply Qfloor_le.
Qed.

(** X2: the frame that sets [finished] on a path is exactly a frame on which
    the line built for it is the whole coordinate array: the flag is set if
    and only if no point of the path is left out of what the frame draws. *)
Theorem X2_finished_iff_whole_line :
  forall (strictPoint : bool) (fr : frame) (i : nat) (f : feature) (s : Q),
    finished f = false -> start f = Some s -> s <= time fr ->
    (finished (after (animateFeature strictPoint fr i f)) = true
     <-> currentLine f (time fr - s) = coordsOf f).
Proof.
  intros strictPoint fr i f s Hf Hs Hle.
  rewrite (running_after strictPoint fr i f s Hf Hs Hle), (settled_finished f _ Hf).
  apply full_line_iff. lra.
Qed.

Lemma X2_finished_iff_whole_line_witness :
  finished (after (animateFeature true (sampleFrame 150) 0 (samplePath 3 0))) = true
  <-> currentLine (samplePath 3 0) (time (sampleFrame 150) - 0) = coordsOf (samplePath 3 0).
Proof.
  apply (X2_finished_iff_whole_line true (sampleFrame 150) 0%nat (samplePath 3 0) 0);
    [reflexivity | reflexivity | vm_compute; discriminate].
Defined.

Lemma finished_threshold (f : feature) (elapsed : Q) :
  isNowFinished f elapsed = true <->
  50 * inject_Z (Z.of_nat (length (coordsOf f))) <= elapsed.
Proof.
  rewrite isNowFinished_iff. unfold pointsPerMs. split; intro; lra.
Qed.

(** X3: an unfinished path of [n] coordinates is marked finished by a frame
    exactly when at least [50 * n] ms have elapsed since its start. *)
Theorem X3_finishes_after_50_ms_per_point :
  forall (strictPoint : bool) (fr : frame) (i : nat) (f : feature) (s : Q),
    finished f = false -> start f = Some s ->
    (finished (after (animateFeature strictPoint fr i f)) = true
     <-> 50 * inject_Z (Z.of_nat (length (coordsOf f))) <= time fr - s).
Proof.
  intros strictPoint fr i f s Hf Hs.
  destruct (Qlt_le_dec (time fr) s) as [Hlt | Hle].
  - rewrite (animateFeature_not_started strictPoint fr i f s Hs Hlt). simpl.
    rewrite Hf. split; [discriminate |].
    intro H. pose proof (coordsLength_nonneg f) as Hn. unfold coordsLength in Hn. lra.
  - rewrite (running_after strictPoint fr i f s Hf Hs Hle), (settled_finished f _ Hf).
    apply finished_threshold.
Qed.

Lemma X3_finishes_after_50_ms_per_point_witness :
  finished (after (animateFeature true (sampleFrame 150) 0 (samplePath 3 0))) = true
  <-> 50 * inject_Z (Z.of_nat (length (coordsOf (samplePath 3 0)))) <= time (sampleFrame 150) - 0.
Proof.
  apply (X3_finishes_after_50_ms_per_point true (sampleFrame 150) 0%nat (samplePath 3 0) 0);
    reflexivity.
Defined.

(** ** Consecutive features of a group *)

Lemma duration_points (f : feature) :
  duration f * pointsPerMs == inject_Z (Z.of_nat (length (coordsOf f)) - 1).
Proof.
  unfold duration, coordsLength, pointsPerMs, Z.sub.
  rewrite inject_Z_plus. change (inject_Z (- (1))) with (- (1)). field.
Qed.

(** X4: within a group admitted by [addLater], a feature starts 50 ms before
    the feature ahead of it is marked finished: the later one starts at the
    earlier one's start plus its duration, and on a frame at that time the
    earlier one (unfinished, with at least one coordinate) shows all of its
    points but the last and is left unfinished. *)
Theorem X4_next_starts_one_point_early :
  forall (strictPoint : bool) (now : Q) (features source : list feature) (k : nat)
         (f g : feature) (fr : frame) (sf : Q),
    nth_error (addLater now features source) (length source + k) = Some f ->
    nth_error (addLater now features source) (length source + S k) = Some g ->
    finished f = false -> coordsOf f <> [] ->
    start f = Some sf -> time fr == sf + duration f ->
    start g = Some (sf + duration f) /\
    finished (after (animateFeature strictPoint fr (length source + k) f)) = false /\
    Z.of_nat (length (currentLine f (time fr - sf)))
      = (Z.of_nat (length (coordsOf f)) - 1)%Z.
Proof.
  intros strictPoint now features source k f g fr sf Hf Hg Hfin Hne Hsf Ht.
  unfold addLater in Hf, Hg. rewrite nth_error_app2 in Hf, Hg by lia.
  replace (length source + k - length source)%nat with k in Hf by lia.
  replace (length source + S k - length source)%nat with (S k) in Hg by lia.
  destruct (addLaterLoop_consecutive features now k f g Hf Hg) as (sf' & Hsf' & Hsg).
  rewrite Hsf in Hsf'. inversion Hsf'; subst sf'. clear Hsf'.
  assert (Hn : (1 <= Z.of_nat (length (coordsOf f)))%Z).
  { destruct (coordsOf f); [congruence | simpl length; lia]. }
  pose proof (duration_points f) as Hd.
  assert (Hep : elapsedPoints (time fr - sf)
                == inject_Z (Z.of_nat (length (coordsOf f)) - 1)).
  { rewrite <- Hd. unfold elapsedPoints. rewrite Ht. ring. }
  assert (Hpos : 0 <= inject_Z (Z.of_nat (length (coordsOf f)) - 1))
    by (change 0 with (inject_Z 0); rewrite <- Zle_Qle; lia).
  assert (H0 : 0 <= time fr - sf).
  { unfold elapsedPoints, pointsPerMs in Hep. lra. }
  assert (Hle : sf <= time fr) by lra.
  split; [exact Hsg | split].
  - rewrite (running_after strictPoint fr _ f sf Hfin Hsf Hle), (settled_finished f _ Hfin).
    destruct (isNowFinished f (time fr - sf)) eqn:E; [| reflexivity].
    apply isNowFinished_iff in E. fold (elapsedPoints (time fr - sf)) in E.
    rewrite Hep in E. rewrite <- Zle_Qle in E. lia.
  - rewrite (currentLine_prefix f _ H0), length_firstn. unfold visiblePoints.
    rewrite Hep, Qfloor_Z. lia.
Qed.

Lemma X4_next_starts_one_point_early_witness :
  start (set_start (lineFeature (sampleCoords 4)) (1000 + duration (lineFeature (sampleCoords 3))))
    = Some (1000 + duration (set_start (lineFeature (sampleCoords 3)) 1000)) /\
  finished (after (animateFeature true (sampleFrame 1100) (0 + 0)
                     (set_start (lineFeature (sampleCoords 3)) 1000))) = false /\
  Z.of_nat (length (currentLine (set_start (lineFeature (sampleCoords 3)) 1000)
                                (time (sampleFrame 1100) - 1000)))
    = (Z.of_nat (length (coordsOf (set_start (lineFeature (sampleCoords 3)) 1000))) - 1)%Z.
Proof.
  apply (X4_next_starts_one_point_early true 1000
           [lineFeature (sampleCoords 3); lineFeature (sampleCoords 4)] [] 0%nat
           (set_start (lineFeature (sampleCoords 3)) 1000)
           (set_start (lineFeature (sampleCoords 4))
                      (1000 + duration (lineFeature (sampleCoords 3))))
           (sampleFrame 1100) 1000);
    [reflexivity | reflexivity | reflexivity | vm_compute; discriminate | reflexivity
    | vm_compute; reflexivity].
Defined.

(** ** The markers of a frame *)

(** X5: the two markers a frame builds for a path sit on the first and on
    the last coordinate of the whole path, not of the part revealed so far,
    whatever the elapsed time; their icon scale is [0.05 / resolution]; they
    are unfinished, unnamed and have no [start]. *)
Theorem X5_markers_at_path_ends :
  forall (strictPoint : bool) (fr : frame) (i : nat) (f : feature) (s : Q),
    finished f = false -> start f = Some s -> s <= time fr -> coordsOf f <> [] ->
    exists e0 e1,
      nth_error (coordsOf f) 0 = Some e0 /\
      nth_error (coordsOf f) (length (coordsOf f) - 1) = Some e1 /\
      added (animateFeature strictPoint fr i f) =
        [mkFeature (Point (Some e0)) None false None (Some (0.05 / resolution fr));
         mkFeature (Point (Some e1)) None false None (Some (0.05 / resolution fr))].
Proof.
  intros strictPoint fr i f s Hf Hs Hle Hne.
  destruct (animateFeature_drawing strictPoint fr i f s Hf Hs Hle Hne)
    as (e0 & e1 & H0 & H1 & E).
  exists e0, e1. rewrite E. repeat split.
  - exact H0.
  - unfold JS.lastOf in H1. destruct (coordsOf f); [congruence | exact H1].
Qed.

Lemma X5_markers_at_path_ends_witness :
  exists e0 e1,
    nth_error (coordsOf (samplePath 3 0)) 0 = Some e0 /\
    nth_error (coordsOf (samplePath 3 0)) (length (coordsOf (samplePath 3 0)) - 1) = Some e1 /\
    added (animateFeature true (sampleFrame 10) 0 (samplePath 3 0)) =
      [mkFeature (Point (Some e0)) None false None (Some (0.05 / resolution (sampleFrame 10)));
       mkFeature (Point (Some e1)) None false None (Some (0.05 / resolution (sampleFrame 10)))].
Proof.
  apply (X5_markers_at_path_ends true (sampleFrame 10) 0%nat (samplePath 3 0) 0);
    [reflexivity | reflexivity | vm_compute; discriminate | vm_compute; discriminate].
Defined.

(** ** The wrapped world *)



(** ** What a run of events keeps *)

Lemma sameButFinished_trans (f g h : feature) :
  sameButFinished f g -> sameButFinished g h -> sameButFinished f h.
Proof.
  unfold sameButFinished. intros (G1 & N1 & S1 & I1 & F1) (G2 & N2 & S2 & I2 & F2).
  repeat split; try congruence. auto.
Qed.

Lemma Forall2_sameButFinished_refl (l : list feature) : Forall2 sameButFinished l l.
Proof. induction l; constructor; auto using sameButFinished_refl. Qed.

Lemma Forall2_sameButFinished_trans (l1 l2 l3 : list feature) :
  Forall2 sameButFinished l1 l2 -> Forall2 sameButFinished l2 l3 ->
  Forall2 sameButFinished l1 l3.
Proof.
  intro H. revert l3. induction H as [| a b l1 l2 Hab H12 IH]; intros l3 H23.
  - inversion H23. constructor.
  - inversion H23 as [| b' c l2' l3' Hbc H23']; subst.
    constructor; [now apply sameButFinished_trans with b | now apply IH].
Qed.

Lemma step_keeps (strictPoint : bool) (source : list feature) (e : event) :
  exists kept extra,
    fst (step strictPoint source e) = kept ++ extra /\ Forall2 sameButFinished source kept.
Proof.
  destruct e as [now features | fr]; simpl.
  - exists source, (addLaterLoop now features). split; [reflexivity |].
    apply Forall2_sameButFinished_refl.
  - exists (snapshot (animateLoop strictPoint fr 0 source)),
           (appended (animateLoop strictPoint fr 0 source)).
    split; [reflexivity | apply animateLoop_snapshot].
Qed.

(** X7: under any run of timer and frame callbacks the source only grows and
    no feature is ever replaced: the features it held at the beginning are
    still there, at the same positions, with the same geometry, name, start
    and icon scale; the only attribute that can differ is [finished], and
    only from false to true. *)
Theorem X7_run_keeps_features :
  forall (strictPoint : bool) (es : list event) (source : list feature),
    exists kept extra,
      fst (run strictPoint source es) = kept ++ extra /\
      Forall2 sameButFinished source kept.
Proof.
  intros strictPoint es. induction es as [| e rest IH]; intro source; simpl.
  - exists source, []. rewrite app_nil_r. split; [reflexivity |].
    apply Forall2_sameButFinished_refl.
  - destruct (step_keeps strictPoint source e) as (k1 & x1 & E1 & F1).
    destruct (step strictPoint source e) as [s1 c]. simpl in E1. subst s1.
    destruct (IH (k1 ++ x1)) as (k2 & x2 & E2 & F2).
    destruct (run strictPoint (k1 ++ x1) rest) as [s2 cs]. simpl in *. subst s2.
    apply Forall2_app_inv_l in F2. destruct F2 as (ka & kb & Fa & Fb & ->).
    exists ka, (kb ++ x2). rewrite <- app_assoc. split; [reflexivity |].
    now apply Forall2_sameButFinished_trans with k1.
Qed.

(** ** Whole frames *)

Lemma not_passing_skipped (strictPoint : bool) (fr : frame) (i : nat) (f : feature) :
  passesGuards fr f = false -> animateFeature strictPoint fr i f = skipped f.
Proof.
  intro G.
  destruct (animateFeature_kind strictPoint fr i f) as [_ E | e G' | e p0 p1 G'];
    [exact E | congruence ..].
Qed.

Lemma raising_iteration (strictPoint : bool) (fr : frame) (i : nat) (f : feature) :
  threw (animateFeature strictPoint fr i f) = true ->
  strictPoint = true /\ coordsOf f = [] /\ passesGuards fr f = true /\
  calls (animateFeature strictPoint fr i f) = [].
Proof.
  destruct (animateFeature_kind strictPoint fr i f)
    as [_ E | e G _ _ Hs Hc E | e p0 p1 _ _ _ _ _ E]; rewrite E; simpl; intro H;
    try discriminate.
  auto.
Qed.

Lemma empty_path_raises (fr : frame) (i : nat) (f : feature) :
  passesGuards fr f = true -> coordsOf f = [] ->
  threw (animateFeature true fr i f) = true.
Proof.
  intros G Hc.
  destruct (animateFeature_kind true fr i f)
    as [G' _ | e _ _ _ _ _ E | e p0 p1 _ _ _ H0 _ E]; [congruence | now rewrite E |].
  rewrite Hc in H0. discriminate.
Qed.

Lemma animateLoop_idle (strictPoint : bool) (fr : frame) (features : list feature) (i : nat) :
  Forall (fun f => passesGuards fr f = false) features ->
  animateLoop strictPoint fr i features = mkPass features [] [] false.
Proof.
  intro H. revert i. induction H as [| f rest Hf _ IH]; intro i; simpl.
  - reflexivity.
  - rewrite (not_passing_skipped strictPoint fr i f Hf). simpl. now rewrite IH.
Qed.

(** X8: a frame on which no feature passes the two guards (each is finished,
    has no start, or starts later) is idle: it leaves the source exactly as
    it was and issues no draw call, and it still calls [map.render()], so
    the loop keeps running when every path is finished. *)
Theorem X8_idle_frame :
  forall (strictPoint : bool) (fr : frame) (source : list feature),
    Forall (fun f => passesGuards fr f = false) source ->
    animateFlights strictPoint fr source = mkTick source [] true.
Proof.
  intros strictPoint fr source H. unfold animateFlights.
  rewrite (animateLoop_idle strictPoint fr source 0 H). simpl. now rewrite app_nil_r.
Qed.

Lemma X8_idle_frame_witness :
  animateFlights true (sampleFrame 10)
    [set_finished (samplePath 3 0) true; samplePath 3 20;
     iconFeature (sampleFrame 5) (Point (Some (Coord [0; 0])))]
  = mkTick [set_finished (samplePath 3 0) true; samplePath 3 20;
            iconFeature (sampleFrame 5) (Point (Some (Coord [0; 0])))] [] true.
Proof.
  apply (X8_idle_frame true (sampleFrame 10)).
  repeat constructor.
Defined.

Lemma animateLoop_completes (strictPoint : bool) (fr : frame) (features : list feature) (i : nat) :
  Forall (fun f => coordsOf f <> []) features ->
  aborted (animateLoop strictPoint fr i features) = false.
Proof.
  intro H. revert i. induction H as [| f rest Hf _ IH]; intro i; simpl.
  - reflexivity.
  - destruct (threw (animateFeature strictPoint fr i f)) eqn:T.
    + apply raising_iteration in T. destruct T as (_ & Hc & _). contradiction.
    + simpl. apply IH.
Qed.

(** X9: when every feature of the source has at least one coordinate, the
    frame runs to its end and calls [map.render()]; it issues two draw calls
    and stores two markers for each feature that passes the guards, and
    nothing else. *)
Theorem X9_frame_completes :
  forall (strictPoint : bool) (fr : frame) (source : list feature),
    Forall (fun f => coordsOf f <> []) source ->
    rendered (animateFlights strictPoint fr source) = true /\
    length (canvas (animateFlights strictPoint fr source))
      = (2 * length (filter (passesGuards fr) source))%nat /\
    length (source' (animateFlights strictPoint fr source))
      = (length source + 2 * length (filter (passesGuards fr) source))%nat.
Proof.
  intros strictPoint fr source H.
  pose proof (animateLoop_completes strictPoint fr source 0 H) as Hab.
  pose proof (animateLoop_count strictPoint fr source 0 Hab) as Hc.
  split; [| split].
  - unfold animateFlights. simpl. now rewrite Hab.
  - exact Hc.
  - rewrite animateFlights_length. unfold animateFlights. simpl. now rewrite Hc.
Qed.

Lemma X9_frame_completes_witness :
  rendered (animateFlights true (sampleFrame 10) [samplePath 3 0; samplePath 3 20]) = true /\
  length (canvas (animateFlights true (sampleFrame 10) [samplePath 3 0; samplePath 3 20]))
    = (2 * length (filter (passesGuards (sampleFrame 10)) [samplePath 3 0; samplePath 3 20]))%nat /\
  length (source' (animateFlights true (sampleFrame 10) [samplePath 3 0; samplePath 3 20]))
    = (length [samplePath 3 0; samplePath 3 20]
       + 2 * length (filter (passesGuards (sampleFrame 10)) [samplePath 3 0; samplePath 3 20]))%nat.
Proof.
  apply (X9_frame_completes true (sampleFrame 10) [samplePath 3 0; samplePath 3 20]).
  repeat constructor; vm_compute; discriminate.
Defined.

Lemma animateLoop_aborts (fr : frame) (features : list feature) (i k : nat) (f : feature) :
  nth_error features k = Some f ->
  passesGuards fr f = true -> coordsOf f = [] ->
  aborted (animateLoop true fr i features) = true /\
  Forall (fun c => (subject c < i + k)%nat) (drawn (animateLoop true fr i features)) /\
  (forall j g, (k < j)%nat -> nth_error features j = Some g ->
               nth_error (snapshot (animateLoop true fr i features)) j = Some g).
Proof.
  revert i k. induction features as [| a rest IH]; intros i k Hk G Hc.
  - destruct k; discriminate.
  - simpl. destruct (threw (animateFeature true fr i a)) eqn:T.
    + simpl. apply raising_iteration in T. destruct T as (_ & _ & _ & E).
      rewrite E. split; [reflexivity |]. split; [constructor |].
      intros j g Hj Hg. destruct j; [lia | exact Hg].
    + destruct k as [| k]; simpl in Hk.
      * inversion Hk; subst a. rewrite (empty_path_raises fr i f G Hc) in T. discriminate.
      * destruct (IH (S i) k Hk G Hc) as (Hab & Hdr & Hrest). simpl.
        split; [exact Hab |]. split.
        -- apply Forall_app. split.
           ++ pose proof (animateFeature_subject true fr i a) as Hs.
              eapply Forall_impl; [| exact Hs]. simpl. intros c Hsc. lia.
           ++ eapply Forall_impl; [| exact Hdr]. simpl. intros c Hsc. lia.
        -- intros j g Hj Hg. destruct j as [| j]; [lia |]. simpl in *.
           apply Hrest; [lia | exact Hg].
Qed.

(** X10: where the library's point constructor raises on an undefined
    position, a path without coordinates that passes the guards aborts the
    frame: [map.render()] is not reached, no draw call is issued for it or
    for any feature behind it in the snapshot, and the features behind it
    are left untouched by that frame. *)
Theorem X10_empty_path_aborts_frame :
  forall (fr : frame) (source : list feature) (k : nat) (f : feature),
    nth_error source k = Some f ->
    passesGuards fr f = true -> coordsOf f = [] ->
    rendered (animateFlights true fr source) = false /\
    Forall (fun c => (subject c < k)%nat) (canvas (animateFlights true fr source)) /\
    (forall j g, (k < j)%nat -> nth_error source j = Some g ->
                 nth_error (source' (animateFlights true fr source)) j = Some g).
Proof.
  intros fr source k f Hk G Hc.
  destruct (animateLoop_aborts fr source 0 k f Hk G Hc) as (Hab & Hdr & Hrest).
  unfold animateFlights. simpl. split; [now rewrite Hab |]. split; [exact Hdr |].
  intros j g Hj Hg. rewrite nth_error_app1.
  - now apply Hrest.
  - rewrite <- (Forall2_length (animateLoop_snapshot true fr source 0)).
    apply nth_error_Some. congruence.
Qed.

Lemma X10_empty_path_aborts_frame_witness :
  rendered (animateFlights true (sampleFrame 10)
              [samplePath 3 0; samplePath 0 0; samplePath 3 0]) = false /\
  Forall (fun c => (subject c < 1)%nat)
         (canvas (animateFlights true (sampleFrame 10)
                    [samplePath 3 0; samplePath 0 0; samplePath 3 0])) /\
  nth_error (source' (animateFlights true (sampleFrame 10)
                        [samplePath 3 0; samplePath 0 0; samplePath 3 0])) 2
    = Some (samplePath 3 0).
Proof.
  pose proof (X10_empty_path_aborts_frame (sampleFrame 10)
                [samplePath 3 0; samplePath 0 0; samplePath 3 0] 1%nat (samplePath 0 0)
                eq_refl eq_refl eq_refl) as (Hr & Hc & Hrest).
  split; [exact Hr |]. split; [exact Hc |].
  apply Hrest; [lia | reflexivity].
Defined.

Lemma filter_subject_same (i : nat) (cs : list drawCall) :
  Forall (fun c => subject c = i) cs ->
  filter (fun c => Nat.eqb (subject c) i) cs = cs.
Proof.
  induction 1 as [| c cs Hc _ IH]; simpl; [reflexivity |].
  rewrite Hc, Nat.eqb_refl. now rewrite IH.
Qed.

Lemma filter_subject_other (j : nat) (cs : list drawCall) :
  Forall (fun c => subject c <> j) cs ->
  filter (fun c => Nat.eqb (subject c) j) cs = [].
Proof.
  induction 1 as [| c cs Hc _ IH]; simpl; [reflexivity |].
  apply Nat.eqb_neq in Hc. now rewrite Hc.
Qed.

Lemma animateLoop_subjects_from (strictPoint : bool) (fr : frame)
      (features : list feature) (i : nat) :
  Forall (fun c => (i <= subject c)%nat) (drawn (animateLoop strictPoint fr i features)).
Proof.
  apply Forall_forall. intros c Hin.
  destruct (animateLoop_drawn strictPoint fr features i c Hin) as (k & f & _ & Hs & _). lia.
Qed.

Lemma animateLoop_calls_of (strictPoint : bool) (fr : frame)
      (features : list feature) (i k : nat) (f : feature) :
  aborted (animateLoop strictPoint fr i features) = false ->
  nth_error features k = Some f ->
  filter (fun c => Nat.eqb (subject c) (i + k)) (drawn (animateLoop strictPoint fr i features))
    = calls (animateFeature strictPoint fr (i + k) f).
Proof.
  revert i k. induction features as [| a rest IH]; intros i k Hab Hk.
  - destruct k; discriminate.
  - simpl in Hab |- *.
    destruct (threw (animateFeature strictPoint fr i a)) eqn:T; simpl in Hab |- *;
      [discriminate |].
    rewrite filter_app.
    destruct k as [| k]; simpl in Hk.
    + inversion Hk; subst a. rewrite Nat.add_0_r.
      rewrite (filter_subject_same i _ (animateFeature_subject strictPoint fr i f)).
      rewrite filter_subject_other; [apply app_nil_r |].
      eapply Forall_impl; [| apply animateLoop_subjects_from]. simpl. intros c Hc. lia.
    + rewrite filter_subject_other.
      * simpl. rewrite Nat.add_succ_r. now apply (IH (S i) k).
      * eapply Forall_impl; [| apply animateFeature_subject]. simpl. intros c Hc. lia.
Qed.

(** X11: the draw calls of a frame are exactly those of the features that
    pass the guards: every draw call is made for a feature of the snapshot
    that is unfinished and has started, and when the frame runs to its end
    the draw calls made for a feature that passes the guards are the two
    calls of its iteration, in that order. *)
Theorem X11_draws_match_guards :
  forall (strictPoint : bool) (fr : frame) (source : list feature),
    (forall c, In c (canvas (animateFlights strictPoint fr source)) ->
       exists f, nth_error source (subject c) = Some f /\ passesGuards fr f = true) /\
    (rendered (animateFlights strictPoint fr source) = true ->
     forall k f, nth_error source k = Some f ->
       filter (fun c => Nat.eqb (subject c) k) (canvas (animateFlights strictPoint fr source))
         = calls (animateFeature strictPoint fr k f) /\
       length (calls (animateFeature strictPoint fr k f))
         = if passesGuards fr f then 2%nat else 0%nat).
Proof.
  intros strictPoint fr source. split.
  - intros c Hin.
    destruct (animateFlights_canvas strictPoint fr source c Hin) as (f & Hf & Hc).
    exists f. split; [exact Hf |].
    destruct (passesGuards fr f) eqn:G; [reflexivity |].
    rewrite (not_passing_skipped strictPoint fr _ f G) in Hc. contradiction.
  - intros Hr k f Hk. unfold animateFlights in *. simpl in *.
    assert (Hab : aborted (animateLoop strictPoint fr 0 source) = false)
      by now destruct (aborted (animateLoop strictPoint fr 0 source)).
    split.
    + exact (animateLoop_calls_of strictPoint fr source 0 k f Hab Hk).
    + apply animateFeature_count.
      destruct (threw (animateFeature strictPoint fr k f)) eqn:T; [| reflexivity].
      exfalso. apply raising_iteration in T. destruct T as (Hs & Hc & G & _). subst strictPoint.
      destruct (animateLoop_aborts fr source 0 k f Hk G Hc) as (Hab' & _). congruence.
Qed.

Lemma X11_draws_match_guards_witness :
  (exists f, nth_error [samplePath 3 200; samplePath 3 0] 1 = Some f /\
             passesGuards (sampleFrame 120) f = true) /\
  filter (fun c => Nat.eqb (subject c) 1)
         (canvas (animateFlights true (sampleFrame 120) [samplePath 3 200; samplePath 3 0]))
    = calls (animateFeature true (sampleFrame 120) 1 (samplePath 3 0)) /\
  length (calls (animateFeature true (sampleFrame 120) 1 (samplePath 3 0)))
    = (if passesGuards (sampleFrame 120) (samplePath 3 0) then 2%nat else 0%nat).
Proof.
  pose proof (X11_draws_match_guards true (sampleFrame 120)
                [samplePath 3 200; samplePath 3 0]) as [Hsound Hcomplete].
  split.
  - apply (Hsound (mkDraw 1 (translate (inject_Z (offset (sampleFrame 120))
                                        * worldWidth (sampleFrame 120)) 0
                               (LineString (currentLine (samplePath 3 0) (120 - 0)))))).
    left. reflexivity.
  - apply (Hcomplete eq_refl 1%nat (samplePath 3 0) eq_refl).
Defined.

(** * Further properties of the admission *)

Lemma addLaterLoop_nth (features : list feature) (now : Q) (k : nat) (f : feature) :
  nth_error features k = Some f ->
  exists s, nth_error (addLaterLoop now features) k = Some (set_start f s).
Proof.
  revert now k. induction features as [| a rest IH]; intros now k Hk.
  - destruct k; discriminate.
  - destruct k as [| k]; simpl in *.
    + inversion Hk; subst a. now exists now.
    + now apply IH.
Qed.

Lemma addLaterLoop_length (features : list feature) (now : Q) :
  length (addLaterLoop now features) = length features.
Proof.
  revert now. induction features as [| a rest IH]; intro now; simpl; [reflexivity |].
  now rewrite IH.
Qed.

(** X12: the timer callback of [addLater] leaves the features already in the
    source as they are and appends the features of the group, all of them,
    in their order; each is changed in its [start] only (an earlier start is
    overwritten), and the first one starts at the clock reading of the
    callback. *)
Theorem X12_addLater_appends :
  forall (now : Q) (features source : list feature),
    firstn (length source) (addLater now features source) = source /\
    length (addLater now features source) = (length source + length features)%nat /\
    (forall k f, nth_error features k = Some f ->
       exists s, nth_error (addLater now features source) (length source + k)
                 = Some (set_start f s)) /\
    (forall f, nth_error features 0 = Some f ->
       nth_error (addLater now features source) (length source + 0) = Some (set_start f now)).
Proof.
  intros now features source. unfold addLater. repeat split.
  - rewrite firstn_app, Nat.sub_diag, firstn_all. simpl. apply app_nil_r.
  - now rewrite length_app, addLaterLoop_length.
  - intros k f Hk. rewrite nth_error_app2 by lia.
    replace (length source + k - length source)%nat with k by lia.
    now apply addLaterLoop_nth.
  - intros f Hf. rewrite nth_error_app2 by lia.
    replace (length source + 0 - length source)%nat with 0%nat by lia.
    destruct features as [| a rest]; simpl in *; [discriminate |]. now inversion Hf.
Qed.

Lemma X12_addLater_appends_witness :
  (exists s, nth_error (addLater 1000 [lineFeature (sampleCoords 3); samplePath 2 7]
                                 [samplePath 3 0]) (1 + 1)
             = Some (set_start (samplePath 2 7) s)) /\
  nth_error (addLater 1000 [lineFeature (sampleCoords 3); samplePath 2 7]
                      [samplePath 3 0]) (1 + 0)
    = Some (set_start (lineFeature (sampleCoords 3)) 1000).
Proof.
  pose proof (X12_addLater_appends 1000 [lineFeature (sampleCoords 3); samplePath 2 7]
                [samplePath 3 0]) as (_ & _ & Hnth & Hfirst).
  split.
  - apply (Hnth 1%nat (samplePath 2 7)). reflexivity.
  - apply (Hfirst (lineFeature (sampleCoords 3))). reflexivity.
Defined.

Lemma duration_closed (f : feature) :
  duration f == 50 * (inject_Z (Z.of_nat (length (coordsOf f))) - 1).
Proof. unfold duration, coordsLength, pointsPerMs. field. Qed.

(** X13: within a group, the feature behind a feature of [n] coordinates
    starts [50 * (n - 1)] ms after it.  So starts never go back behind a
    feature that has coordinates, and behind a feature without coordinates
    the next one starts 50 ms before it. *)
Theorem X13_group_starts_in_order :
  forall (now : Q) (features source : list feature) (k : nat) (f g : feature),
    nth_error (addLater now features source) (length source + k) = Some f ->
    nth_error (addLater now features source) (length source + S k) = Some g ->
    exists sf sg,
      start f = Some sf /\ start g = Some sg /\
      sg == sf + 50 * (inject_Z (Z.of_nat (length (coordsOf f))) - 1) /\
      (sf <= sg <-> coordsOf f <> []).
Proof.
  intros now features source k f g Hf Hg.
  unfold addLater in Hf, Hg. rewrite nth_error_app2 in Hf, Hg by lia.
  replace (length source + k - length source)%nat with k in Hf by lia.
  replace (length source + S k - length source)%nat with (S k) in Hg by lia.
  destruct (addLaterLoop_consecutive features now k f g Hf Hg) as (sf & Hsf & Hsg).
  exists sf, (sf + duration f). pose proof (duration_closed f) as Hd.
  repeat split; try assumption.
  - now rewrite Hd.
  - intros Hle Hc. rewrite Hc in Hd. simpl in Hd. change (inject_Z 0) with 0 in Hd. lra.
  - intro Hne.
    assert (Hn : inject_Z 1 <= inject_Z (Z.of_nat (length (coordsOf f)))).
    { rewrite <- Zle_Qle. destruct (coordsOf f); [congruence | simpl length; lia]. }
    change (inject_Z 1) with 1 in Hn. lra.
Qed.

Lemma X13_group_starts_in_order_witness :
  exists sf sg,
    start (set_start (lineFeature []) 1000) = Some sf /\
    start (set_start (lineFeature (sampleCoords 4)) (1000 + duration (lineFeature []))) = Some sg /\
    sg == sf + 50 * (inject_Z (Z.of_nat (length (coordsOf (set_start (lineFeature []) 1000)))) - 1) /\
    (sf <= sg <-> coordsOf (set_start (lineFeature []) 1000) <> []).
Proof.
  apply (X13_group_starts_in_order 1000 [lineFeature []; lineFeature (sampleCoords 4)] [] 0%nat
           (set_start (lineFeature []) 1000)
           (set_start (lineFeature (sampleCoords 4)) (1000 + duration (lineFeature []))));
    reflexivity.
Defined.

(** ** The loader *)








(** * The layer style and the popup *)

(** X15: the layer's style function and the animation loop never show the
    same feature: a feature to which the function gives the stroke style is
    skipped by the loop; for an unfinished path that has started, the
    function gives the stroke style after a frame exactly when that frame
    has built the whole line; and a feature without a start (a marker of a
    frame) never gets the stroke style, whatever events follow. *)
Theorem X15_style_takes_over :
  forall (strictPoint : bool),
    (forall fr i f, flightsLayerStyle f = Some style ->
       animateFeature strictPoint fr i f = skipped f) /\
    (forall fr i f s, finished f = false -> start f = Some s -> s <= time fr ->
       (flightsLayerStyle (after (animateFeature strictPoint fr i f)) = Some style
        <-> currentLine f (time fr - s) = coordsOf f)) /\
    (forall es source k g, nth_error source k = Some g ->
       start g = None -> finished g = false ->
       exists g', nth_error (fst (run strictPoint source es)) k = Some g' /\
                  flightsLayerStyle g' = None).
Proof.
  intro strictPoint. split; [| split].
  - intros fr i f H. apply animateFeature_finished.
    unfold flightsLayerStyle in H. destruct (finished f); [reflexivity | discriminate].
  - intros fr i f s Hf Hs Hle.
    rewrite <- (full_line_iff f (time fr - s)) by lra.
    rewrite (running_after strictPoint fr i f s Hf Hs Hle).
    unfold flightsLayerStyle. rewrite (settled_finished f _ Hf).
    destruct (isNowFinished f (time fr - s)); split; intro H; congruence.
  - intros es source k g Hk Hs Hf. exists g. split.
    + apply run_inert; [exact Hk | now right].
    + unfold flightsLayerStyle. now rewrite Hf.
Qed.

Lemma X15_style_takes_over_witness :
  animateFeature true (sampleFrame 10) 0 (set_finished (samplePath 3 0) true)
    = skipped (set_finished (samplePath 3 0) true) /\
  (flightsLayerStyle (after (animateFeature true (sampleFrame 150) 0 (samplePath 3 0)))
     = Some style
   <-> currentLine (samplePath 3 0) (time (sampleFrame 150) - 0) = coordsOf (samplePath 3 0)) /\
  (exists g',
      nth_error (fst (run true [iconFeature (sampleFrame 5) (Point (Some (Coord [0; 0])))]
                          [PostRender (sampleFrame 10)])) 0 = Some g' /\
      flightsLayerStyle g' = None).
Proof.
  pose proof (X15_style_takes_over true) as (Hskip & Hover & Hmarker).
  split; [| split].
  - apply Hskip. reflexivity.
  - apply (Hover (sampleFrame 150) 0%nat (samplePath 3 0) 0);
      [reflexivity | reflexivity | vm_compute; discriminate].
  - apply (Hmarker [PostRender (sampleFrame 10)]
             [iconFeature (sampleFrame 5) (Point (Some (Coord [0; 0])))] 0%nat
             (iconFeature (sampleFrame 5) (Point (Some (Coord [0; 0])))));
      reflexivity.
Defined.

Section PopupProperties.

Variable hdmsOf : coordinate -> string.

Lemma popupRun_snoc (p : popup) (es : list mapEvent) (e : mapEvent) :
  popupRun hdmsOf p (es ++ [e]) = popupStep hdmsOf (popupRun hdmsOf p es) e.
Proof. unfold popupRun. now rewrite fold_left_app. Qed.

Lemma lastClick_snoc_click (es : list mapEvent) (c : coordinate) :
  lastClick (es ++ [SingleClick c]) = Some c.
Proof. induction es as [| e rest IH]; simpl; [reflexivity | now rewrite IH]. Qed.

Lemma lastClick_snoc_other (es : list mapEvent) (e : mapEvent) :
  (forall c, e <> SingleClick c) -> lastClick (es ++ [e]) = lastClick es.
Proof.
  intro H. induction es as [| a rest IH]; simpl.
  - destruct e as [c | |]; [now destruct (H c) | reflexivity ..].
  - now rewrite IH.
Qed.

(** X16: after any sequence of clicks on the map, clicks on the closer and
    starts of a map move, the content of the popup is the text written by
    the last click of the sequence (closing does not clear it; without a
    click it is what it was); and when the sequence is not empty and the
    popup is shown, it is anchored at the coordinate of that last click, so
    position and content belong to the same click.  The popup is hidden
    whenever the last event is a click on the closer or the start of a
    move. *)
Theorem X16_popup_follows_last_click :
  forall (p : popup) (es : list mapEvent),
    innerHTML (popupRun hdmsOf p es)
      = match lastClick es with
        | Some c => ("<p>You clicked here:</p><code>" ++ hdmsOf c ++ "</code>")%string
        | None => innerHTML p
        end /\
    (forall c, es <> [] -> position (popupRun hdmsOf p es) = Some c ->
               lastClick es = Some c) /\
    (forall es' e, es = es' ++ [e] -> (forall c, e <> SingleClick c) ->
                   position (popupRun hdmsOf p es) = None).
Proof.
  intros p es. split; [| split].
  - induction es as [| e rest IH] using rev_ind; [reflexivity |].
    rewrite popupRun_snoc. destruct e as [c | |]; simpl.
    + now rewrite lastClick_snoc_click.
    + rewrite lastClick_snoc_other by discriminate. exact IH.
    + rewrite lastClick_snoc_other by discriminate. exact IH.
  - intros c Hne. destruct es as [| e rest] using rev_ind; [congruence |].
    rewrite popupRun_snoc. destruct e as [c' | |]; simpl; intro H; try discriminate.
    inversion H; subst c'. apply lastClick_snoc_click.
  - intros es' e -> He. rewrite popupRun_snoc.
    destruct e as [c | |]; [now destruct (He c) | reflexivity ..].
Qed.

End PopupProperties.

Lemma X16_popup_follows_last_click_witness :
  lastClick [SingleClick [1; 2]; CloserClick; SingleClick [3; 4]] = Some [3; 4] /\
  position (popupRun (fun _ => "here"%string) (mkPopup None EmptyString)
              [SingleClick [1; 2]; MoveStart]) = None.
Proof.
  pose proof (X16_popup_follows_last_click (fun _ => "here"%string) (mkPopup None EmptyString)
                [SingleClick [1; 2]; CloserClick; SingleClick [3; 4]]) as (_ & Hpos & _).
  pose proof (X16_popup_follows_last_click (fun _ => "here"%string) (mkPopup None EmptyString)
                [SingleClick [1; 2]; MoveStart]) as (_ & _ & Hhid).
  split.
  - apply Hpos; [discriminate | reflexivity].
  - apply (Hhid [SingleClick [1; 2]] MoveStart); [reflexivity | discriminate].
Defined.

(** * Features do not interfere within a frame *)

Lemma after_index_free (strictPoint : bool) (fr : frame) (i j : nat) (f : feature) :
  after (animateFeature strictPoint fr i f) = after (animateFeature strictPoint fr j f).
Proof.
  destruct (animateFeature_kind strictPoint fr i f)
    as [G E | e G He H0 Hs Hc E | e p0 p1 G He H0 P0 P1 E]; rewrite E; simpl.
  - now rewrite (not_passing_skipped strictPoint fr j f G).
  - destruct (animateFeature_kind strictPoint fr j f)
      as [G' _ | e' _ He' _ _ _ E' | e' q0 q1 _ He' _ _ _ E']; [congruence | |];
      rewrite E'; simpl; congruence.
  - destruct (animateFeature_kind strictPoint fr j f)
      as [G' _ | e' _ He' _ _ _ E' | e' q0 q1 _ He' _ _ _ E']; [congruence | |];
      rewrite E'; simpl; congruence.
Qed.

Lemma animateLoop_after (strictPoint : bool) (fr : frame)
      (features : list feature) (i k : nat) (f : feature) :
  aborted (animateLoop strictPoint fr i features) = false ->
  nth_error features k = Some f ->
  nth_error (snapshot (animateLoop strictPoint fr i features)) k
    = Some (after (animateFeature strictPoint fr (i + k) f)).
Proof.
  revert i k. induction features as [| a rest IH]; intros i k Hab Hk.
  - destruct k; discriminate.
  - simpl in Hab |- *.
    destruct (threw (animateFeature strictPoint fr i a)) eqn:T; simpl in Hab |- *;
      [discriminate |].
    destruct k as [| k]; simpl in Hk |- *.
    + inversion Hk; subst a. now rewrite Nat.add_0_r.
    + rewrite Nat.add_succ_r. now apply (IH (S i) k).
Qed.

(** X17: on a frame that runs to its end, what happens to a feature depends
    on that feature and on the frame alone, not on its position nor on the
    other features of the source: it is left in the source, at its
    position, as its own iteration leaves it; so, when it is unfinished and
    has a start, it is marked finished exactly when [50 * n] ms have elapsed
    since its start, [n] being the number of its coordinates. *)
Theorem X17_frame_treats_features_alone :
  forall (strictPoint : bool) (fr : frame) (source : list feature) (k : nat) (f : feature),
    rendered (animateFlights strictPoint fr source) = true ->
    nth_error source k = Some f ->
    nth_error (source' (animateFlights strictPoint fr source)) k
      = Some (after (animateFeature strictPoint fr 0 f)) /\
    (forall s, finished f = false -> start f = Some s ->
       exists g, nth_error (source' (animateFlights strictPoint fr source)) k = Some g /\
                 (finished g = true
                  <-> 50 * inject_Z (Z.of_nat (length (coordsOf f))) <= time fr - s)).
Proof.
  intros strictPoint fr source k f Hr Hk.
  assert (Hab : aborted (animateLoop strictPoint fr 0 source) = false).
  { unfold animateFlights in Hr. simpl in Hr.
    now destruct (aborted (animateLoop strictPoint fr 0 source)). }
  assert (E : nth_error (source' (animateFlights strictPoint fr source)) k
              = Some (after (animateFeature strictPoint fr 0 f))).
  { unfold animateFlights. simpl. rewrite nth_error_app1.
    - rewrite (animateLoop_after strictPoint fr source 0 k f Hab Hk).
      f_equal. apply after_index_free.
    - rewrite <- (Forall2_length (animateLoop_snapshot strictPoint fr source 0)).
      apply nth_error_Some. congruence. }
  split; [exact E |].
  intros s Hf Hs. exists (after (animateFeature strictPoint fr 0 f)). split; [exact E |].
  destruct (Qlt_le_dec (time fr) s) as [Hlt | Hle].
  - rewrite (animateFeature_not_started strictPoint fr 0 f s Hs Hlt). simpl.
    rewrite Hf. split; [discriminate |].
    intro H. pose proof (coordsLength_nonneg f) as Hn. unfold coordsLength in Hn. lra.
  - rewrite (running_after strictPoint fr 0 f s Hf Hs Hle), (settled_finished f _ Hf).
    apply finished_threshold.
Qed.

Lemma X17_frame_treats_features_alone_witness :
  nth_error (source' (animateFlights true (sampleFrame 150) [samplePath 5 0; samplePath 3 0])) 1
    = Some (after (animateFeature true (sampleFrame 150) 0 (samplePath 3 0))) /\
  (exists g,
      nth_error (source' (animateFlights true (sampleFrame 150)
                            [samplePath 5 0; samplePath 3 0])) 1 = Some g /\
      (finished g = true
       <-> 50 * inject_Z (Z.of_nat (length (coordsOf (samplePath 3 0))))
           <= time (sampleFrame 150) - 0)).
Proof.
  pose proof (X17_frame_treats_features_alone true (sampleFrame 150)
                [samplePath 5 0; samplePath 3 0] 1%nat (samplePath 3 0) eq_refl eq_refl)
    as [Hat Hfin].
  split; [exact Hat |].
  apply (Hfin 0); reflexivity.
Defined.
